(** * tedana dynamic report: the linked-selection callback and the
      component-table preparation of [reporting/KappaRho_DynPlot.py]

    The development has two sides:
    - the Python side ([create_data_struct], [_spectrum_data_src],
      [tap_callback]) is embedded as functions into a small exception
      type [py];
    - the JavaScript text [tap_callback_jscode] is embedded as a function
      on the objects that [tap_callback] binds into the callback.

    The numbers of the tables are exact rationals ([Q]) and the pie
    angle, which multiplies by pi, is a real number ([R]): ranks, order
    and sums are stated of the values before rounding.  Where rounding
    decides a property, the sizes of the markers, the scaler is given a
    second time over the 64-bit floats the program computes with
    ([MinMaxScaler64]). *)

From Stdlib Require Import Ascii QArith Qminmax Qreals Reals Psatz Permutation.
From Stdlib Require PrimFloat.
From Stdlib Require OrderedTypeEx.
From stdpp Require Import gmap strings list fin_maps pretty sorting.

(* ===================================================================== *)
(** * Strings as JavaScript and Python see them                           *)
(* ===================================================================== *)

Module Str.

(** The line terminator written [\n] in the callback text. *)
Definition nl : ascii := Ascii.ascii_of_nat 10.
Definition LF : string := String nl EmptyString.

Definition is_nl (c : ascii) : bool := Ascii.eqb c nl.

(** [text.split("\n")]: the pieces between line terminators; a string
    without terminator is one piece, the empty string is one empty
    piece. *)
Fixpoint split (s : string) : list string :=
  match s with
  | EmptyString => [EmptyString]
  | String c rest =>
      if is_nl c then EmptyString :: split rest
      else match split rest with
           | piece :: pieces => String c piece :: pieces
           | [] => [String c EmptyString]
           end
  end.

(** [lines.join("\n")]. *)
Fixpoint join (pieces : list string) : string :=
  match pieces with
  | [] => EmptyString
  | [piece] => piece
  | piece :: more => piece +:+ LF +:+ join more
  end.

(** Number of line terminators of a string. *)
Fixpoint nl_count (s : string) : nat :=
  match s with
  | EmptyString => 0
  | String c rest => (if is_nl c then 1 else 0) + nl_count rest
  end.

(** [while (s.length < 2) s = '0' + s], unrolled on the number of
    characters that are missing. *)
Fixpoint pad_loop (missing : nat) (s : string) : string :=
  match missing with
  | 0 => s
  | S m => if String.length s <? 2 then pad_loop m ("0" +:+ s) else s
  end.

Definition pad2 (s : string) : string := pad_loop (2 - String.length s) s.

(** [n] characters [0]. *)
Fixpoint zeros_text (n : nat) : string :=
  match n with
  | 0 => EmptyString
  | S m => String "0" (zeros_text m)
  end.

(** Python's [str(c).zfill(2)] on a non-negative integer. *)
Definition zfill2 (c : nat) : string := pad2 (pretty c).

End Str.

(* ===================================================================== *)
(** * The objects bound into the callback                                 *)
(* ===================================================================== *)

(** A slot of an array of numbers as the browser holds the columns that
    were numpy arrays: a typed array of 64-bit floats, whose slots are
    numbers or [NaN] and whose length is fixed. *)
Inductive cell : Type :=
| NaN
| Num (q : Q).

Abbreviation array := (list cell).

(** [a[i]]: [undefined], here [None], past the end. *)
Definition js_get (a : array) (i : nat) : option cell := a !! i.

(** What a typed array stores for a value: [undefined] becomes [NaN]. *)
Definition to_number (v : option cell) : cell :=
  match v with
  | Some c => c
  | None => NaN
  end.

(** [a[i] = v]: in range the slot is overwritten, past the end the write
    is dropped. *)
Definition js_set (a : array) (i : nat) (v : option cell) : array :=
  if i <? length a then <[i:=to_number v]> a else a.

(** [ColumnDataSource(data=dict(x=..., y=...))] of the two line plots. *)
Record PlotSource : Type := {
  plot_x : array;
  plot_y : array
}.

(** The columns of the component table that the callback reads, and the
    [selected.indices] property of the source. *)
Record CompTableSource : Type := {
  data_component : list string;
  data_color : list string;
  selected_indices : list nat
}.

(** Everything [tap_callback] passes in [args]; [None] for a colour is
    JavaScript's [undefined]. *)
Record js_env : Type := {
  source_comp_table : CompTableSource;
  source_meica_ts : gmap string array;
  source_tsplot : PlotSource;
  source_meica_fft : gmap string array;
  source_fftplot : PlotSource;
  div_text : string;
  ts_line_color : option string;
  fft_line_color : option string;
  outdir : string
}.

(** How a run of the callback ends: normally, or with a [TypeError]
    thrown on the way, in which case the writes made so far stay. *)
Inductive outcome : Type :=
| Completed (s : js_env)
| Thrown (err : string) (s : js_env).

(** The objects as a run leaves them. *)
Definition after (o : outcome) : js_env :=
  match o with
  | Completed s => s
  | Thrown _ s => s
  end.

Module JS.

(** [selected_idx > 0] with an array on the left: the array is turned
    into the text of its elements joined by commas and that text into a
    number.  No element gives the empty text, which is 0; one element
    gives that element; two or more give a text with a comma, which is
    not a number ([None]). *)
Definition array_to_number (a : list nat) : option nat :=
  match a with
  | [] => Some 0
  | [k] => Some k
  | _ :: _ :: _ => None
  end.

Definition gt_zero (a : list nat) : bool :=
  match array_to_number a with
  | Some k => 0 <? k
  | None => false
  end.

(** [column[selected_idx]]: the array is the property key; only a
    one-element array names an index. *)
Definition at_indices {A} (column : list A) (a : list nat) : option A :=
  match a with
  | [k] => column !! k
  | _ => None
  end.

(** ['' + v] *)
Definition to_text (v : option string) : string :=
  match v with
  | Some s => s
  | None => "undefined"
  end.

(** [for (var i = 0; i < n; i++) { y[i] = src[i] }] from [i] on. *)
Fixpoint copy_loop (n i : nat) (src y : array) : array :=
  match n with
  | 0 => y
  | S n' => copy_loop n' (S i) src (js_set y i (js_get src i))
  end.

(** [for (var i = 0; i < n; i++) { y[i] = 0 }] from [i] on. *)
Fixpoint zero_loop (n i : nat) (y : array) : array :=
  match n with
  | 0 => y
  | S n' => zero_loop n' (S i) (js_set y i (Some (Num 0)))
  end.

(** The statements under "Updating TS Plot" and "Updating FFT Plot" of
    the first branch: [None] when indexing the missing column throws,
    which happens at the first pass of the loop. *)
Definition overwrite (column : option array) (p : PlotSource)
  : option PlotSource :=
  match column with
  | Some src =>
      Some {| plot_x := plot_x p;
              plot_y := copy_loop (length (plot_x p)) 0 src (plot_y p) |}
  | None =>
      if length (plot_x p) =? 0 then Some p else None
  end.

Definition zero_out (p : PlotSource) : PlotSource :=
  {| plot_x := plot_x p;
     plot_y := zero_loop (length (plot_x p)) 0 (plot_y p) |}.

(** The text assembled in [var line]. *)
Definition image_line (out_dir padded_forIMG : string) : string :=
  "<span><img src='" +:+ out_dir +:+ "/figures/comp_" +:+ padded_forIMG
    +:+ ".png'" +:+ " alt='Component Map' height=1000 width=900><span>"
    +:+ Str.LF.

(** [if (lines.length > 35) lines.shift();] *)
Definition shift_over_35 (lines : list string) : list string :=
  if 35 <? length lines then tail lines else lines.

Definition with_lines (s : js_env) (c1 c2 : option string) : js_env :=
  {| source_comp_table := source_comp_table s;
     source_meica_ts := source_meica_ts s;
     source_tsplot := source_tsplot s;
     source_meica_fft := source_meica_fft s;
     source_fftplot := source_fftplot s;
     div_text := div_text s;
     ts_line_color := c1;
     fft_line_color := c2;
     outdir := outdir s |}.

Definition with_tsplot (s : js_env) (p : PlotSource) : js_env :=
  {| source_comp_table := source_comp_table s;
     source_meica_ts := source_meica_ts s;
     source_tsplot := p;
     source_meica_fft := source_meica_fft s;
     source_fftplot := source_fftplot s;
     div_text := div_text s;
     ts_line_color := ts_line_color s;
     fft_line_color := fft_line_color s;
     outdir := outdir s |}.

Definition with_fftplot (s : js_env) (p : PlotSource) : js_env :=
  {| source_comp_table := source_comp_table s;
     source_meica_ts := source_meica_ts s;
     source_tsplot := source_tsplot s;
     source_meica_fft := source_meica_fft s;
     source_fftplot := p;
     div_text := div_text s;
     ts_line_color := ts_line_color s;
     fft_line_color := fft_line_color s;
     outdir := outdir s |}.

Definition with_div_text (s : js_env) (t : string) : js_env :=
  {| source_comp_table := source_comp_table s;
     source_meica_ts := source_meica_ts s;
     source_tsplot := source_tsplot s;
     source_meica_fft := source_meica_fft s;
     source_fftplot := source_fftplot s;
     div_text := t;
     ts_line_color := ts_line_color s;
     fft_line_color := fft_line_color s;
     outdir := outdir s |}.

(** The branch "A component has been selected". *)
Definition selected_branch (s : js_env) : outcome :=
  let data := source_comp_table s in
  let selected_idx := selected_indices data in
  let selected := at_indices (data_component data) selected_idx in
  let selected_padded := Str.pad2 (to_text selected) in
  let selected_padded_forIMG := "0" +:+ selected_padded in
  let selected_padded_C := "ica_" +:+ selected_padded in
  let this_component_color := at_indices (data_color data) selected_idx in
  let s := with_lines s this_component_color this_component_color in
  match overwrite (source_meica_ts s !! selected_padded_C)
                  (source_tsplot s) with
  | None => Thrown "TypeError" s
  | Some ts =>
      let s := with_tsplot s ts in
      match overwrite (source_meica_fft s !! selected_padded_C)
                      (source_fftplot s) with
      | None => Thrown "TypeError" s
      | Some fft =>
          let s := with_fftplot s fft in
          let s := with_div_text s "" in
          let line := image_line (outdir s) selected_padded_forIMG in
          let text := div_text s +:+ line in
          let lines := shift_over_35 (Str.split text) in
          Completed (with_div_text s (Str.join lines))
      end
  end.

(** The value of [var line] in a run of the first branch. *)
Definition line_of (s : js_env) : string :=
  let data := source_comp_table s in
  image_line (outdir s)
    ("0" +:+ Str.pad2 (to_text (at_indices (data_component data)
                                           (selected_indices data)))).

(** The branch "No component has been selected". *)
Definition unselected_branch (s : js_env) : outcome :=
  let this_component_color := Some "#000000" in
  let s := with_lines s this_component_color this_component_color in
  let s := with_tsplot s (zero_out (source_tsplot s)) in
  let s := with_fftplot s (zero_out (source_fftplot s)) in
  Completed (with_div_text s Str.LF).

(** [tap_callback_jscode] *)
Definition tap_callback_jscode (s : js_env) : outcome :=
  if gt_zero (selected_indices (source_comp_table s))
  then selected_branch s
  else unselected_branch s.

End JS.

(* ===================================================================== *)
(** * Python: exceptions, objects, and the construction of the callback   *)
(* ===================================================================== *)

(** A raised exception: the name of its class and its argument. *)
Record exn : Type := Exn {
  exn_class : string;
  exn_arg : string
}.

Inductive py (A : Type) : Type :=
| Return (a : A)
| Raise (e : exn).

Arguments Return {A} a.
Arguments Raise {A} e.

#[global] Instance py_ret : MRet py := fun A a => Return a.
#[global] Instance py_bind : MBind py := fun A B k c =>
  match c with
  | Return a => k a
  | Raise e => Raise e
  end.

Definition KeyError (key : string) : exn := Exn "KeyError" key.
Definition NameError (name : string) : exn := Exn "NameError" name.
Definition ValueError (msg : string) : exn := Exn "ValueError" msg.

(** The exception of Python's [/] on numbers when the divisor is 0; the
    text is the one for float operands. *)
Definition ZeroDivisionError : exn :=
  Exn "ZeroDivisionError" "float division by zero".

(** A Python value as [tap_callback] handles it: a reference to a bokeh
    model (its identity), or a string. *)
Inductive pyval : Type :=
| PRef (id : nat)
| PStr (s : string).

(** [models.CustomJS(args=..., code=...)] *)
Record CustomJS : Type := {
  args : gmap string pyval;
  code : js_env -> outcome
}.

(** Reading a module-level name. *)
Definition load_global (globals : gmap string pyval) (name : string)
  : py pyval :=
  match globals !! name with
  | Some v => Return v
  | None => Raise (NameError name)
  end.

(** [tap_callback]: the keyword [div] of [args] is bound to the name
    [div_content], which is not a parameter and so is read from the
    module. *)
Definition tap_callback (globals : gmap string pyval)
    (comptable_cds CDS_meica_ts comp_fft_cds plot_ts_cds plot_fft_cds
     ts_line_glyph fft_line_glyph div out_dir : pyval) : py CustomJS :=
  div_content ← load_global globals "div_content";
  Return {| args := list_to_map
                      [ ("source_comp_table", comptable_cds);
                        ("source_meica_ts", CDS_meica_ts);
                        ("source_tsplot", plot_ts_cds);
                        ("source_meica_fft", comp_fft_cds);
                        ("source_fftplot", plot_fft_cds);
                        ("div", div_content);
                        ("ts_line", ts_line_glyph);
                        ("fft_line", fft_line_glyph);
                        ("outdir", out_dir) ];
            code := JS.tap_callback_jscode |}.

(** [_link_figures]: the handler attached to the figure's Tap event. *)
Definition _link_figures (globals : gmap string pyval)
    (comptable_ds ts_src fft_src ts_plot fft_plot
     ts_line_glyph fft_line_glyph div_content out_dir : pyval)
  : py CustomJS :=
  tap_callback globals comptable_ds ts_src fft_src ts_plot fft_plot
               ts_line_glyph fft_line_glyph div_content out_dir.

(** [np.arange(n)] and [np.zeros(n,)] as the arrays the browser gets. *)
Definition arange (n : nat) : array :=
  (fun i => Num (inject_Z (Z.of_nat i))) <$> seq 0 n.

Definition zeros (n : nat) : array := replicate n (Num 0).

(** [_create_ts_plot]: the colour of the line glyph and the data source
    of the trace. *)
Definition _create_ts_plot (n_vol : nat) : string * PlotSource :=
  ("#000000", {| plot_x := arange n_vol; plot_y := zeros n_vol |}).

(** [np.max(freqs)]: numpy refuses to reduce an array without
    elements. *)
Definition np_max (values : list Q) : py Q :=
  match values with
  | [] =>
      Raise (ValueError
               ("zero-size array to reduction operation maximum "
                +:+ "which has no identity"))
  | x :: rest => Return (fold_left Qmax rest x)
  end.

(** [_create_fft_plot]: the colour of the line glyph and the data source
    of the trace; [max_freq] ends the range of the frequency axis. *)
Definition _create_fft_plot (freqs : list Q) : py (string * PlotSource) :=
  let Nf := length freqs in
  max_freq ← np_max freqs;
  Return ("#000000", {| plot_x := Num <$> freqs; plot_y := zeros Nf |}).

(* ===================================================================== *)
(** * The component table: [create_data_struct]                           *)
(* ===================================================================== *)

(** [color_mapping] *)
Definition color_mapping : gmap string string :=
  <["accepted" := "#2ecc71"]>
    (<["rejected" := "#e74c3c"]>
       (<["ignored" := "#3498db"]> ∅)).

(** One row of the table once it is read, the description row and the
    method column are dropped and the table is transposed: the columns
    that survive [df.drop(unused_cols)] and the one the scaler reads. *)
Module Comptable.
Record row : Type := {
  kappa : Q;
  rho : Q;
  var_exp : Q;
  normalized_variance_explained : Q;
  classification : string
}.
End Comptable.

(** [sklearn.preprocessing.MinMaxScaler], one feature at a time, on the
    values before rounding; [MinMaxScaler64] below is the scaler on the
    floats. *)
Module MinMaxScaler.

Record fitted : Type := {
  data_min_ : Q;
  data_max_ : Q;
  data_range_ : Q;
  scale_ : Q;
  min_ : Q
}.

(** A constant feature has range 0 and is scaled by 1 instead. *)
Definition handle_zeros_in_scale (scale : Q) : Q :=
  if Qeq_bool scale 0 then 1%Q else scale.

Definition fit (feature_range : Q * Q) (column : list Q) : py fitted :=
  match column with
  | [] => Raise (ValueError "Found array with 0 sample(s)")
  | x :: rest =>
      let data_min := fold_left Qmin rest x in
      let data_max := fold_left Qmax rest x in
      let data_range := (data_max - data_min)%Q in
      let scale := ((snd feature_range - fst feature_range)
                    / handle_zeros_in_scale data_range)%Q in
      Return {| data_min_ := data_min;
                data_max_ := data_max;
                data_range_ := data_range;
                scale_ := scale;
                min_ := (fst feature_range - data_min * scale)%Q |}
  end.

Definition transform (f : fitted) (column : list Q) : list Q :=
  (fun x => (x * scale_ f + min_ f)%Q) <$> column.

(** [fit_transform] on a table of two features. *)
Definition fit_transform (feature_range : Q * Q) (X : list (Q * Q))
  : py (list (Q * Q)) :=
  f0 ← fit feature_range X.*1;
  f1 ← fit feature_range X.*2;
  Return (zip (transform f0 X.*1) (transform f1 X.*2)).

End MinMaxScaler.

(** The same scaler over the 64-bit floats it computes with: every
    operation rounds, and nothing clips the result to the feature
    range.  The input check refuses infinite values and lets [NaN]
    pass; [np.nanmin] and [np.nanmax] skip [NaN]. *)
Module MinMaxScaler64.
Import PrimFloat.

Record fitted : Type := {
  data_min_ : float;
  data_max_ : float;
  data_range_ : float;
  scale_ : float;
  min_ : float
}.

Definition handle_zeros_in_scale (scale : float) : float :=
  if (scale =? 0)%float then 1%float else scale.

(** One step of [np.nanmin] and [np.nanmax]: [acc] is [NaN] as long as
    no number was seen. *)
Definition nan_step (better : float -> float -> bool) (acc x : float)
  : float :=
  if is_nan x then acc
  else if is_nan acc then x
  else if better x acc then x else acc.

Definition nanmin (column : list float) : float :=
  fold_left (nan_step ltb) column nan.

Definition nanmax (column : list float) : float :=
  fold_left (nan_step (fun x acc => ltb acc x)) column nan.

Definition fit (feature_range : float * float) (column : list float)
  : py fitted :=
  match column with
  | [] => Raise (ValueError "Found array with 0 sample(s)")
  | _ :: _ =>
      if existsb is_infinity column
      then Raise (ValueError
                    ("Input contains infinity or a value too large for "
                     +:+ "dtype('float64')."))
      else
        let data_min := nanmin column in
        let data_max := nanmax column in
        let data_range := (data_max - data_min)%float in
        let scale := ((snd feature_range - fst feature_range)
                      / handle_zeros_in_scale data_range)%float in
        Return {| data_min_ := data_min;
                  data_max_ := data_max;
                  data_range_ := data_range;
                  scale_ := scale;
                  min_ := (fst feature_range - data_min * scale)%float |}
  end.

Definition transform (f : fitted) (column : list float) : list float :=
  (fun x => (x * scale_ f + min_ f)%float) <$> column.

Definition fit_transform (feature_range : float * float)
    (X : list (float * float)) : py (list (float * float)) :=
  f0 ← fit feature_range X.*1;
  f1 ← fit feature_range X.*2;
  Return (zip (transform f0 X.*1) (transform f1 X.*2)).

End MinMaxScaler64.

(** [Series.rank(ascending=False)] with pandas' default way of ranking
    equal values, their average position: a value with [g] strictly
    greater values in a group of [e] equal values (itself included) sits
    at positions [g+1 .. g+e], whose average is [g + (e+1)/2]. *)
Module Series.

Fixpoint count (p : Q -> bool) (column : list Q) : nat :=
  match column with
  | [] => 0
  | y :: rest => (if p y then 1 else 0) + count p rest
  end.

Definition Qlt_bool (x y : Q) : bool := negb (Qle_bool y x).

Definition greater_than (column : list Q) (x : Q) : nat :=
  count (fun y => Qlt_bool x y) column.

Definition equal_to (column : list Q) (x : Q) : nat :=
  count (fun y => Qeq_bool x y) column.

Definition of_nat (n : nat) : Q := inject_Z (Z.of_nat n).

Definition rank_of (column : list Q) (x : Q) : Q :=
  (of_nat (greater_than column x)
   + (of_nat (equal_to column x) + 1) / 2)%Q.

Definition rank_descending (column : list Q) : list Q :=
  rank_of column <$> column.

(** [Series.sum()] *)
Definition sum (column : list Q) : Q := fold_right Qplus 0%Q column.

End Series.

(** [[color_mapping[i] for i in df['classification']]] *)
Fixpoint colors_of (mapping : gmap string string) (labels : list string)
  : py (list string) :=
  match labels with
  | [] => Return []
  | i :: rest =>
      match mapping !! i with
      | None => Raise (KeyError i)
      | Some c => cs ← colors_of mapping rest; Return (c :: cs)
      end
  end.

(** The value of [x / total * 2 * pi] for a [total] that is not 0. *)
Definition angle_of (total x : Q) : R := (Q2R x / Q2R total * 2 * PI)%R.

Definition angles (column : list Q) : list R :=
  angle_of (Series.sum column) <$> column.

(** [df['var_exp'] / df['var_exp'].sum() * 2 * pi]: the columns of the
    transposed table hold Python numbers, and dividing the first of
    them by a sum of 0 raises. *)
Definition angle_column (column : list Q) : py (list R) :=
  match column with
  | [] => Return []
  | _ :: _ =>
      if Qeq_bool (Series.sum column) 0 then Raise ZeroDivisionError
      else Return (angles column)
  end.

(** The frame just before it is sorted, row by row. *)
Module Frame.
Record row : Type := {
  kappa : Q;
  rho : Q;
  var_exp : Q;
  var_exp_size : Q;
  rho_rank : Q;
  kappa_rank : Q;
  var_exp_rank : Q;
  classification : string;
  color : string;
  component : nat;
  angle : R
}.

(** Order of [sort_values(by=['classification', 'var_exp'])]: labels
    by their characters, equal labels by variance explained. *)
Definition key_le (a b : row) : bool :=
  match String.compare (classification a) (classification b) with
  | Lt => true
  | Gt => false
  | Eq => Qle_bool (var_exp a) (var_exp b)
  end.

Fixpoint insert (a : row) (sorted : list row) : list row :=
  match sorted with
  | [] => [a]
  | b :: rest => if key_le a b then a :: b :: rest else b :: insert a rest
  end.

(** Sorting on several columns keeps rows with equal keys in their
    order. *)
Fixpoint sort_values (rows : list row) : list row :=
  match rows with
  | [] => []
  | a :: rest => insert a (sort_values rest)
  end.
End Frame.

(** The data of the [ColumnDataSource] that [create_data_struct]
    returns, one list per key. *)
Module CDS.
Record t : Type := {
  kappa : list Q;
  rho : list Q;
  varexp : list Q;
  kappa_rank : list Q;
  rho_rank : list Q;
  varexp_rank : list Q;
  component : list string;
  color : list string;
  size : list Q;
  classif : list string;
  angle : list R
}.
End CDS.

(** What [nth] reads past the last row; no row of the frame is read
    there. *)
Definition blank_row : Comptable.row :=
  {| Comptable.kappa := 0; Comptable.rho := 0; Comptable.var_exp := 0;
     Comptable.normalized_variance_explained := 0;
     Comptable.classification := "" |}.

(** Row [i] of the frame from its columns. *)
Definition frame_row (df : list Comptable.row)
    (var_exp_size rho_rank kappa_rank var_exp_rank : list Q)
    (color : list string) (angle : list R) (i : nat) : Frame.row :=
  let src := nth i df blank_row in
  {| Frame.kappa := Comptable.kappa src;
     Frame.rho := Comptable.rho src;
     Frame.var_exp := Comptable.var_exp src;
     Frame.var_exp_size := nth i var_exp_size 0%Q;
     Frame.rho_rank := nth i rho_rank 0%Q;
     Frame.kappa_rank := nth i kappa_rank 0%Q;
     Frame.var_exp_rank := nth i var_exp_rank 0%Q;
     Frame.classification := Comptable.classification src;
     Frame.color := nth i color "";
     Frame.component := i;
     Frame.angle := nth i angle 0%R |}.

Definition create_data_struct (df : list Comptable.row)
    (color_mapping : gmap string string) : py CDS.t :=
  let n_comps := length df in
  X ← MinMaxScaler.fit_transform (4, 20)%Q
        ((fun r => (Comptable.var_exp r,
                    Comptable.normalized_variance_explained r)) <$> df);
  let var_exp_size := X.*1 in
  let rho_rank := Series.rank_descending (Comptable.rho <$> df) in
  let kappa_rank := Series.rank_descending (Comptable.kappa <$> df) in
  let var_exp_rank := Series.rank_descending (Comptable.var_exp <$> df) in
  color ← colors_of color_mapping (Comptable.classification <$> df);
  angle ← angle_column (Comptable.var_exp <$> df);
  let frame :=
    frame_row df var_exp_size rho_rank kappa_rank var_exp_rank color angle
      <$> seq 0 n_comps in
  let frame := Frame.sort_values frame in
  Return {| CDS.kappa := Frame.kappa <$> frame;
            CDS.rho := Frame.rho <$> frame;
            CDS.varexp := Frame.var_exp <$> frame;
            CDS.kappa_rank := Frame.kappa_rank <$> frame;
            CDS.rho_rank := Frame.rho_rank <$> frame;
            CDS.varexp_rank := Frame.var_exp_rank <$> frame;
            CDS.component := (fun r => pretty (Frame.component r)) <$> frame;
            CDS.color := Frame.color <$> frame;
            CDS.size := Frame.var_exp_size <$> frame;
            CDS.classif := Frame.classification <$> frame;
            CDS.angle := Frame.angle <$> frame |}.

(* ===================================================================== *)
(** * The spectra of all components: [_spectrum_data_src]                 *)
(* ===================================================================== *)

(** A pandas frame while its columns are filled: the length of its index
    and its columns, a missing value ([NaN]) being [None]. *)
Record DataFrame : Type := {
  index_len : nat;
  columns : gmap string (list (option Q))
}.

(** [pd.DataFrame(columns=names, index=np.arange(n))]: every column is
    there and holds missing values only. *)
Definition empty_frame (names : list string) (n : nat) : DataFrame :=
  {| index_len := n;
     columns :=
       foldr (fun name m => <[name := replicate n None]> m) ∅ names |}.

(** [df[cid] = values] for an array of values: refused unless there is
    one value per index entry. *)
Definition setitem (df : DataFrame) (cid : string) (values : list Q)
  : py DataFrame :=
  if length values =? index_len df
  then Return {| index_len := index_len df;
                 columns := <[cid := Some <$> values]> (columns df) |}
  else Raise (ValueError "Length of values does not match length of index").

(** [cds.data[cid]] *)
Definition getitem (data : gmap string (list Q)) (cid : string)
  : py (list Q) :=
  match data !! cid with
  | Some column => Return column
  | None => Raise (KeyError cid)
  end.

(** [models.ColumnDataSource(df)]: the columns and the index. *)
Definition ColumnDataSource_of (df : DataFrame)
  : gmap string (list (option Q)) :=
  <["index" := (fun i => Some (Series.of_nat i)) <$> seq 0 (index_len df)]>
    (columns df).

Definition ica_name (c : nat) : string := "ica_" +:+ Str.zfill2 c.

Section SpectrumEstimator.

(** [utils.get_spectrum(data, tr)] returns the power spectrum of a
    series and the frequencies it is given at; the function is defined
    in another module of the package and is taken as given. *)
Variable get_spectrum : list Q -> Q -> list Q * list Q.

(** The body of [for c in np.arange(n_comps)]. *)
Fixpoint fill_spectra (comp_ts_cds : gmap string (list Q)) (tr : Q)
    (cs : list nat) (df : DataFrame) (freqs : list Q)
  : py (DataFrame * list Q) :=
  match cs with
  | [] => Return (df, freqs)
  | c :: rest =>
      let cid := ica_name c in
      ts ← getitem comp_ts_cds cid;
      let '(spectrum, freqs) := get_spectrum ts tr in
      df ← setitem df cid spectrum;
      fill_spectra comp_ts_cds tr rest df freqs
  end.

Definition _spectrum_data_src (comp_ts_cds : gmap string (list Q))
    (tr : Q) (n_comps : nat)
  : py (gmap string (list (option Q)) * list Q) :=
  ts0 ← getitem comp_ts_cds "ica_00";
  let '(spectrum, freqs) := get_spectrum ts0 tr in
  let n_freqs := length spectrum in
  let df := empty_frame (ica_name <$> seq 0 n_comps) n_freqs in
  '(df, freqs) ← fill_spectra comp_ts_cds tr (seq 0 n_comps) df freqs;
  Return (ColumnDataSource_of df, freqs).

End SpectrumEstimator.

(** Modelled from the spec: [utils.get_spectrum] is not among the sources.
    The spec asks for a one-sided power spectrum over the frequencies
    from zero to the Nyquist frequency; a series of [n] samples then has
    [n/2 + 1] bins, at the multiples of [1/(n*tr)].  Only this shape is
    modelled: the magnitudes, which need the transform itself, are left
    at zero. *)
Definition one_sided_spectrum (ts : list Q) (tr : Q) : list Q * list Q :=
  let n := length ts in
  let bins := seq 0 (n / 2 + 1) in
  ((fun _ => 0%Q) <$> bins,
   (fun k => (Series.of_nat k / (Series.of_nat n * tr))%Q) <$> bins).

(* ===================================================================== *)
(** * Notions of the specification and a report to run the code on        *)
(* ===================================================================== *)

(** The trace and its axis have one length: so the two plot sources are
    built by [_create_ts_plot] and [_create_fft_plot]. *)
Definition aligned (p : PlotSource) : Prop :=
  length (plot_y p) = length (plot_x p).

(** The entries of the panel: its lines that are not empty. *)
Definition panel_entries (text : string) : list string :=
  List.filter (fun l => negb (String.eqb l EmptyString)) (Str.split text).

(** The bounded history the specification describes for the panel: the
    new line is appended to what the panel holds and only the last 35
    lines are kept. *)
Definition spec_history_append (old line : string) : string :=
  let lines := Str.split (old +:+ line) in
  Str.join (drop (length lines - 35) lines).

(** No two values of a column are equal. *)
Fixpoint all_distinct (column : list Q) : bool :=
  match column with
  | [] => true
  | x :: rest =>
      forallb (fun y => negb (Qeq_bool x y)) rest && all_distinct rest
  end.

(** The integers [1 .. n] as rank values. *)
Definition one_to (n : nat) : list Q := Series.of_nat <$> seq 1 n.

(** [Series.sum()] of a column of real numbers. *)
Definition Rsum (column : list R) : R := foldr Rplus 0%R column.

(** A report of five components with variance explained 40, 25, 15, 12
    and 8, classified accepted, accepted, rejected, rejected, ignored. *)
Definition comptable_entry (k r v : Q) (c : string) : Comptable.row :=
  {| Comptable.kappa := k; Comptable.rho := r; Comptable.var_exp := v;
     Comptable.normalized_variance_explained := (v / 100)%Q;
     Comptable.classification := c |}.

Definition five_components : list Comptable.row :=
  [ comptable_entry 50 10 40 "accepted";
    comptable_entry 40 20 25 "accepted";
    comptable_entry 30 30 15 "rejected";
    comptable_entry 20 40 12 "rejected";
    comptable_entry 10 50 8 "ignored" ].

(** Two components with one kappa. *)
Definition tied_components : list Comptable.row :=
  [ comptable_entry 5 1 60 "accepted";
    comptable_entry 5 2 40 "rejected" ].

(** Three components that explain the same variance. *)
Definition equal_variance_components : list Comptable.row :=
  [ comptable_entry 30 10 25 "accepted";
    comptable_entry 20 20 25 "rejected";
    comptable_entry 10 30 25 "ignored" ].

(** The columns a run returned; no row at all if it raised. *)
Definition returned (c : py CDS.t) : CDS.t :=
  match c with
  | Return cds => cds
  | Raise _ =>
      {| CDS.kappa := []; CDS.rho := []; CDS.varexp := [];
         CDS.kappa_rank := []; CDS.rho_rank := []; CDS.varexp_rank := [];
         CDS.component := []; CDS.color := []; CDS.size := [];
         CDS.classif := []; CDS.angle := [] |}
  end.

Definition five_cds : CDS.t :=
  returned (create_data_struct five_components color_mapping).

Definition equal_variance_cds : CDS.t :=
  returned (create_data_struct equal_variance_components color_mapping).

Definition series3 (a b c : Z) : array :=
  [Num (inject_Z a); Num (inject_Z b); Num (inject_Z c)].

Definition five_series : gmap string array :=
  <["ica_00" := series3 1 2 3]>
    (<["ica_01" := series3 4 5 6]>
       (<["ica_02" := series3 7 8 9]>
          (<["ica_03" := series3 3 1 4]>
             (<["ica_04" := series3 2 7 1]> ∅)))).

Definition five_spectra : gmap string array :=
  <["ica_00" := [Num 9; Num 1]]>
    (<["ica_01" := [Num 8; Num 2]]>
       (<["ica_02" := [Num 7; Num 3]]>
          (<["ica_03" := [Num 6; Num 4]]>
             (<["ica_04" := [Num 5; Num 5]]> ∅)))).

(** What [_create_fft_plot] returned; a plot without axis if it
    raised. *)
Definition built (c : py (string * PlotSource)) : string * PlotSource :=
  match c with
  | Return p => p
  | Raise _ => (EmptyString, {| plot_x := []; plot_y := [] |})
  end.

(** The spectrum plot of the report of five components: two bins. *)
Definition five_fft_plot : string * PlotSource :=
  built (_create_fft_plot [0; 1 # 4]%Q).

(** The rows of the table source come out of [create_data_struct] sorted
    by classification and variance explained: components 1, 0, 4, 3, 2.
    [five_report idx old] is the report after a tap that selected the
    rows [idx], the panel holding [old]. *)
Definition five_report (idx : list nat) (old : string) : js_env :=
  {| source_comp_table :=
       {| data_component := ["1"; "0"; "4"; "3"; "2"];
          data_color := ["#2ecc71"; "#2ecc71"; "#3498db";
                         "#e74c3c"; "#e74c3c"];
          selected_indices := idx |};
     source_meica_ts := five_series;
     source_tsplot := snd (_create_ts_plot 3);
     source_meica_fft := five_spectra;
     source_fftplot := snd five_fft_plot;
     div_text := old;
     ts_line_color := Some (fst (_create_ts_plot 3));
     fft_line_color := Some (fst five_fft_plot);
     outdir := "/opt/out" |}.

(** Two series of four and of eight samples. *)
Definition ragged_series : gmap string (list Q) :=
  <["ica_00" := [1; 2; 3; 4]%Q]>
    (<["ica_01" := [1; 2; 3; 4; 5; 6; 7; 8]%Q]> ∅).

(** Two series of four samples each. *)
Definition even_series : gmap string (list Q) :=
  <["ica_00" := [1; 2; 3; 4]%Q]>
    (<["ica_01" := [4; 3; 2; 1]%Q]> ∅).

(** Module-level names of the script at the time the figures are linked:
    the panel is the model number 7. *)
Definition script_globals : gmap string pyval :=
  <["div_content" := PRef 7]> ∅.

(* ===================================================================== *)
(** * Taps one after the other                                            *)
(* ===================================================================== *)

(** The tap tool puts the rows it hit into [selected.indices] of the
    table source. *)
Definition with_selected (s : js_env) (idx : list nat) : js_env :=
  {| source_comp_table :=
       {| data_component := data_component (source_comp_table s);
          data_color := data_color (source_comp_table s);
          selected_indices := idx |};
     source_meica_ts := source_meica_ts s;
     source_tsplot := source_tsplot s;
     source_meica_fft := source_meica_fft s;
     source_fftplot := source_fftplot s;
     div_text := div_text s;
     ts_line_color := ts_line_color s;
     fft_line_color := fft_line_color s;
     outdir := outdir s |}.

(** One tap: the callback runs on the new selection; when it throws, the
    objects stay as the handler left them. *)
Definition tap (s : js_env) (idx : list nat) : js_env :=
  after (JS.tap_callback_jscode (with_selected s idx)).

Definition taps (s : js_env) (events : list (list nat)) : js_env :=
  foldl tap s events.

(** Two reports that differ at most in what they display: the traces,
    the colours of the lines and the panel. *)
Definition same_report (s1 s2 : js_env) : Prop :=
  source_comp_table s1 = source_comp_table s2
  /\ source_meica_ts s1 = source_meica_ts s2
  /\ source_meica_fft s1 = source_meica_fft s2
  /\ plot_x (source_tsplot s1) = plot_x (source_tsplot s2)
  /\ plot_x (source_fftplot s1) = plot_x (source_fftplot s2)
  /\ outdir s1 = outdir s2.

(** A text from behind its first line terminator on; nothing is left of
    a text without one. *)
Fixpoint after_first_line (text : string) : string :=
  match text with
  | EmptyString => EmptyString
  | String c rest => if Str.is_nl c then rest else after_first_line rest
  end.

(** The last three statements of the first branch, on any text. *)
Definition panel_step (text : string) : string :=
  Str.join (JS.shift_over_35 (Str.split text)).

(** The five-component report with the stored series and spectra
    replaced. *)
Definition five_report_with (ts fft : gmap string array) (idx : list nat)
  : js_env :=
  {| source_comp_table := source_comp_table (five_report idx "");
     source_meica_ts := ts;
     source_tsplot := source_tsplot (five_report idx "");
     source_meica_fft := fft;
     source_fftplot := source_fftplot (five_report idx "");
     div_text := "";
     ts_line_color := ts_line_color (five_report idx "");
     fft_line_color := fft_line_color (five_report idx "");
     outdir := outdir (five_report idx "") |}.


(** [n] lines that hold one letter each. *)
Fixpoint lines_text (n : nat) : string :=
  match n with
  | 0 => EmptyString
  | S m => String "x" (String Str.nl (lines_text m))
  end.


(* ===================================================================== *)
(** * Notions for the rows and the order of the returned table            *)
(* ===================================================================== *)

(** What a row of the frame holds: the values of the table row with its
    component number, the size the fitted scaler gives its variance
    explained, and its three ranks. *)
Definition row_from (df : list Comptable.row) (f0 : MinMaxScaler.fitted)
    (r : Frame.row) : Prop :=
  exists x, df !! Frame.component r = Some x
    /\ Frame.kappa r = Comptable.kappa x
    /\ Frame.rho r = Comptable.rho x
    /\ Frame.var_exp r = Comptable.var_exp x
    /\ Frame.classification r = Comptable.classification x
    /\ Frame.var_exp_size r
       = (Comptable.var_exp x * MinMaxScaler.scale_ f0
          + MinMaxScaler.min_ f0)%Q
    /\ Frame.kappa_rank r
       = Series.rank_of (Comptable.kappa <$> df) (Comptable.kappa x)
    /\ Frame.rho_rank r
       = Series.rank_of (Comptable.rho <$> df) (Comptable.rho x)
    /\ Frame.var_exp_rank r
       = Series.rank_of (Comptable.var_exp <$> df) (Comptable.var_exp x).


(** The three metrics that are ranked, their column of the table and
    their two columns of the returned data. *)
Inductive metric : Type := Kappa | Rho | VarExp.

Definition metric_of (m : metric) (r : Comptable.row) : Q :=
  match m with
  | Kappa => Comptable.kappa r
  | Rho => Comptable.rho r
  | VarExp => Comptable.var_exp r
  end.

Definition metric_values (m : metric) (cds : CDS.t) : list Q :=
  match m with
  | Kappa => CDS.kappa cds
  | Rho => CDS.rho cds
  | VarExp => CDS.varexp cds
  end.

Definition metric_ranks (m : metric) (cds : CDS.t) : list Q :=
  match m with
  | Kappa => CDS.kappa_rank cds
  | Rho => CDS.rho_rank cds
  | VarExp => CDS.varexp_rank cds
  end.

(** Three components, two of them with one kappa, one rho and one
    variance explained. *)
Definition two_of_a_kind : list Comptable.row :=
  [ comptable_entry 7 3 20 "accepted";
    comptable_entry 9 1 60 "rejected";
    comptable_entry 7 3 20 "accepted" ].

Definition two_of_a_kind_cds : CDS.t :=
  returned (create_data_struct two_of_a_kind color_mapping).


(** The time series of the five components as the table source of the
    series holds them: four samples each. *)
Definition five_series_table : gmap string (list Q) :=
  <["ica_00" := [1; 2; 3; 4]%Q]>
    (<["ica_01" := [4; 3; 2; 1]%Q]>
       (<["ica_02" := [0; 1; 0; 1]%Q]>
          (<["ica_03" := [2; 2; 2; 2]%Q]>
             (<["ica_04" := [5; 0; 5; 0]%Q]> ∅)))).


(** The two parts of what [_spectrum_data_src] returned; nothing if it
    raised. *)
Definition returned_columns
    (c : py (gmap string (list (option Q)) * list Q))
  : gmap string (list (option Q)) :=
  match c with
  | Return (cds, _) => cds
  | Raise _ => ∅
  end.

Definition returned_freqs
    (c : py (gmap string (list (option Q)) * list Q)) : list Q :=
  match c with
  | Return (_, freqs) => freqs
  | Raise _ => []
  end.


(* ===================================================================== *)
(** * The ranked plots and the pie: [create_sorted_plt],
      [create_varexp_pie_plt]                                             *)
(* ===================================================================== *)

(** A value of [comptable_cds.data]: a series of numbers, the series of
    angles, a series of texts, or the plain list of component names. *)
Inductive column : Type :=
| NumColumn (values : list Q)
| RealColumn (values : list R)
| TextColumn (values : list string)
| PlainList (values : list string).

(** [comptable_cds.data[key]] *)
Definition CDS_data (cds : CDS.t) (key : string) : option column :=
  if decide (key = "kappa") then Some (NumColumn (CDS.kappa cds))
  else if decide (key = "rho") then Some (NumColumn (CDS.rho cds))
  else if decide (key = "varexp") then Some (NumColumn (CDS.varexp cds))
  else if decide (key = "kappa_rank")
       then Some (NumColumn (CDS.kappa_rank cds))
  else if decide (key = "rho_rank") then Some (NumColumn (CDS.rho_rank cds))
  else if decide (key = "varexp_rank")
       then Some (NumColumn (CDS.varexp_rank cds))
  else if decide (key = "component")
       then Some (PlainList (CDS.component cds))
  else if decide (key = "color") then Some (TextColumn (CDS.color cds))
  else if decide (key = "size") then Some (NumColumn (CDS.size cds))
  else if decide (key = "classif") then Some (TextColumn (CDS.classif cds))
  else if decide (key = "angle") then Some (RealColumn (CDS.angle cds))
  else None.

(** [Series.sort_values(ascending=False).values]: the values from the
    greatest to the least. *)
Fixpoint insert_desc {A} (leb : A -> A -> bool) (a : A) (sorted : list A)
  : list A :=
  match sorted with
  | [] => [a]
  | b :: rest =>
      if leb b a then a :: b :: rest else b :: insert_desc leb a rest
  end.

Definition sort_desc {A} (leb : A -> A -> bool) (values : list A) : list A :=
  foldr (insert_desc leb) [] values.

Definition Rle_bool (x y : R) : bool := if Rle_dec x y then true else false.

Definition sort_values_descending (c : column) : py column :=
  match c with
  | NumColumn values => Return (NumColumn (sort_desc Qle_bool values))
  | RealColumn values => Return (RealColumn (sort_desc Rle_bool values))
  | TextColumn values => Return (TextColumn (sort_desc String.leb values))
  | PlainList _ =>
      Raise (Exn "AttributeError"
                 "'list' object has no attribute 'sort_values'")
  end.

(** What [create_sorted_plt] puts into its figure. *)
Record SortedPlot : Type := {
  sorted_title : option string;
  line_x : list Q;
  line_y : column;
  line_color : string;
  circle_x : string;
  circle_y : string;
  circle_source : CDS.t;
  x_axis_label : option string;
  y_axis_label : option string;
  x_range : Q * Q
}.

(** [create_sorted_plt]: the first parameter is spelled
    [compatable_cds]; the body reads [comptable_cds], the table of the
    module, [None] when the module has not defined it. *)
Definition create_sorted_plt (module_comptable_cds : option CDS.t)
    (compatable_cds : CDS.t) (n_comps : nat) (x_var y_var : string)
    (title x_label y_label : option string) : py SortedPlot :=
  comptable_cds ← match module_comptable_cds with
                  | Some cds => Return cds
                  | None => Raise (NameError "comptable_cds")
                  end;
  series ← match CDS_data comptable_cds y_var with
           | Some c => Return c
           | None => Raise (KeyError y_var)
           end;
  y ← sort_values_descending series;
  Return {| sorted_title := title;
            line_x := Series.of_nat <$> seq 1 n_comps;
            line_y := y;
            line_color := "black";
            circle_x := x_var;
            circle_y := y_var;
            circle_source := comptable_cds;
            x_axis_label := x_label;
            y_axis_label := y_label;
            x_range := ((-1)%Q, Series.of_nat (n_comps + 1)) |}.

(** The keys of the three metrics and of their ranks. *)
Definition metric_key (m : metric) : string :=
  match m with
  | Kappa => "kappa"
  | Rho => "rho"
  | VarExp => "varexp"
  end.

Definition rank_key (m : metric) : string :=
  match m with
  | Kappa => "kappa_rank"
  | Rho => "rho_rank"
  | VarExp => "varexp_rank"
  end.

(** bokeh's [cumsum(field, include_zero)]: the running sums of a
    column; with [include_zero] the sums start at zero and leave the
    last value out, so that the result is as long as the column. *)
Fixpoint running_sums (before : R) (include_zero : bool) (values : list R)
  : list R :=
  match values with
  | [] => []
  | x :: rest =>
      (if include_zero then before else (before + x)%R)
        :: running_sums (before + x)%R include_zero rest
  end.

Definition cumsum (values : list R) (include_zero : bool) : list R :=
  running_sums 0%R include_zero values.

(** One wedge of the pie. *)
Record Wedge : Type := {
  start_angle : R;
  end_angle : R;
  fill_color : string
}.

(** What [create_varexp_pie_plt] puts into its figure: the wedges, one
    for each row of the table, and the white disc over their centre. *)
Record PiePlot : Type := {
  pie_title : string;
  wedge_x : Q;
  wedge_y : Q;
  wedge_radius : Q;
  wedges : list Wedge;
  wedge_line_color : string;
  wedge_fill_alpha : Q;
  axis_visible : bool;
  grid_visible : bool;
  circle_size : Q;
  circle_fill_color : string
}.

Definition create_varexp_pie_plt (comptable_cds : CDS.t) (n_comps : nat)
  : PiePlot :=
  {| pie_title := "Variance Explained View";
     wedge_x := 0;
     wedge_y := 1;
     wedge_radius := 9 # 10;
     wedges :=
       zip_with (fun angles color =>
                   {| start_angle := angles.1;
                      end_angle := angles.2;
                      fill_color := color |})
         (zip (cumsum (CDS.angle comptable_cds) true)
              (cumsum (CDS.angle comptable_cds) false))
         (CDS.color comptable_cds);
     wedge_line_color := "white";
     wedge_fill_alpha := 7 # 10;
     axis_visible := false;
     grid_visible := false;
     circle_size := 150;
     circle_fill_color := "white" |}.


(** The ranked plot of rho of the report of five components, as the
    script asks for it. *)
Definition five_rho_plot : SortedPlot :=
  {| sorted_title := Some "Rho Rank";
     line_x := [1; 2; 3; 4; 5]%Q;
     line_y := NumColumn [50; 40; 30; 20; 10]%Q;
     line_color := "black";
     circle_x := "rho_rank";
     circle_y := "rho";
     circle_source := five_cds;
     x_axis_label := Some "Rho";
     y_axis_label := None;
     x_range := ((-1)%Q, 6%Q) |}.


(** Notions for the sizes as the program computes them, in 64-bit
    floats. *)
Module Sizes64.
Import PrimFloat.

(** [feature_range=(4, 20)] *)
Definition feature_range : float * float := (4, 20)%float.




End Sizes64.


(** Two components that explain no variance at all. *)
Definition zero_variance_components : list Comptable.row :=
  [ comptable_entry 30 10 0 "accepted";
    comptable_entry 20 20 0 "rejected" ].


(* ===================================================================== *)
(** * Facts about the string helpers                                      *)
(* ===================================================================== *)

Module StrFacts.
Import Str.

Lemma is_nl_true c : is_nl c = true -> c = nl.
Proof. unfold is_nl. apply Ascii.eqb_eq. Qed.

Lemma split_cons s : exists piece pieces, split s = piece :: pieces.
Proof.
  destruct s as [|c rest]; simpl; [by eauto|].
  destruct (is_nl c); [by eauto|].
  destruct (split rest); eauto.
Qed.

(** Joining the pieces of a text gives the text back. *)
Lemma join_split s : join (split s) = s.
Proof.
  induction s as [|c rest IH]; simpl; [done|].
  destruct (split_cons rest) as (piece & pieces & Hs).
  rewrite Hs in IH |- *.
  destruct (is_nl c) eqn:Hc.
  - apply is_nl_true in Hc. subst c.
    change (join (EmptyString :: piece :: pieces))
      with (String nl (join (piece :: pieces))).
    by rewrite IH.
  - rewrite <- IH. by destruct pieces.
Qed.

(** A text has one more piece than it has line terminators. *)
Lemma length_split s : length (split s) = S (nl_count s).
Proof.
  induction s as [|c rest IH]; simpl; [done|].
  destruct (split_cons rest) as (piece & pieces & Hs).
  rewrite Hs in IH |- *.
  destruct (is_nl c); simpl in *; lia.
Qed.

Lemma nl_count_app a b : nl_count (a +:+ b) = nl_count a + nl_count b.
Proof. induction a as [|c a IH]; simpl; [done|]. rewrite IH. lia. Qed.

(** What the padding loop computes. *)
Lemma pad2_short c :
  pad2 (String c EmptyString) = String "0" (String c EmptyString).
Proof. reflexivity. Qed.

Lemma pad2_long s : 2 <= String.length s -> pad2 s = s.
Proof.
  intros H. unfold pad2.
  replace (2 - String.length s) with 0 by lia. reflexivity.
Qed.

Lemma pad2_empty : pad2 EmptyString = "00".
Proof. reflexivity. Qed.

(** The loop puts in front the zeros that are missing to two
    characters. *)
Lemma pad2_zeros s : pad2 s = zeros_text (2 - String.length s) +:+ s.
Proof.
  destruct s as [|c1 [|c2 rest]]; reflexivity.
Qed.

Lemma nl_count_zeros_text n : nl_count (zeros_text n) = 0.
Proof. induction n as [|n IH]; [done|]. simpl. by rewrite IH. Qed.

Lemma nl_count_pad2 s : nl_count (pad2 s) = nl_count s.
Proof. by rewrite pad2_zeros, nl_count_app, nl_count_zeros_text. Qed.

End StrFacts.

(* ===================================================================== *)
(** * Facts about the two loops of the callback                           *)
(* ===================================================================== *)

Module LoopFacts.
Import JS.

Lemma js_set_in_range (a : array) i v :
  i < length a -> js_set a i v = <[i:=to_number v]> a.
Proof.
  intros H. unfold js_set.
  destruct (Nat.ltb_spec i (length a)); [done|lia].
Qed.

Lemma length_copy_loop n : forall i src (y : array),
  i + n <= length y -> length (copy_loop n i src y) = length y.
Proof.
  induction n as [|n IH]; intros i src y H; simpl; [done|].
  rewrite js_set_in_range by lia.
  rewrite IH; rewrite length_insert; [done|lia].
Qed.

Lemma lookup_copy_loop n : forall i src (y : array) j,
  i + n <= length y ->
  copy_loop n i src y !! j =
    if decide (i <= j < i + n) then Some (to_number (js_get src j))
    else y !! j.
Proof.
  induction n as [|n IH]; intros i src y j H; simpl.
  - case_decide; [lia|done].
  - rewrite js_set_in_range by lia.
    rewrite IH by (rewrite length_insert; lia).
    destruct (decide (i = j)) as [->|Hij].
    + rewrite decide_False by lia. rewrite decide_True by lia.
      apply list_lookup_insert_eq. lia.
    + rewrite list_lookup_insert_ne by done.
      repeat case_decide; (done || lia).
Qed.

(** Over arrays of one length the copying loop leaves the source. *)
Lemma copy_loop_all (src y : array) :
  length src = length y -> copy_loop (length y) 0 src y = src.
Proof.
  intros H. apply list_eq. intros j.
  rewrite lookup_copy_loop by lia.
  case_decide as Hj.
  - unfold js_get. destruct (src !! j) eqn:E; [done|].
    apply lookup_ge_None in E. lia.
  - rewrite !lookup_ge_None_2; (done || lia).
Qed.

Lemma length_zero_loop n : forall i (y : array),
  i + n <= length y -> length (zero_loop n i y) = length y.
Proof.
  induction n as [|n IH]; intros i y H; simpl; [done|].
  rewrite js_set_in_range by lia.
  rewrite IH; rewrite length_insert; [done|lia].
Qed.

Lemma lookup_zero_loop n : forall i (y : array) j,
  i + n <= length y ->
  zero_loop n i y !! j =
    if decide (i <= j < i + n) then Some (Num 0) else y !! j.
Proof.
  induction n as [|n IH]; intros i y j H; simpl.
  - case_decide; [lia|done].
  - rewrite js_set_in_range by lia.
    rewrite IH by (rewrite length_insert; lia).
    destruct (decide (i = j)) as [->|Hij].
    + rewrite decide_False by lia. rewrite decide_True by lia.
      apply list_lookup_insert_eq. lia.
    + rewrite list_lookup_insert_ne by done.
      repeat case_decide; (done || lia).
Qed.

(** Over a trace as long as its axis the zeroing loop leaves zeros. *)
Lemma zero_loop_all (y : array) :
  zero_loop (length y) 0 y = zeros (length y).
Proof.
  apply list_eq. intros j. unfold zeros.
  rewrite lookup_zero_loop by lia.
  case_decide as Hj.
  - symmetry. apply lookup_replicate_2. lia.
  - rewrite !lookup_ge_None_2; [done| |lia].
    rewrite length_replicate. lia.
Qed.

End LoopFacts.

(* ===================================================================== *)
(** * The selection linker: what a tap does                               *)
(* ===================================================================== *)

Module TapFacts.
Import JS.

(** The panel after the first branch: a line with fewer than 35 line
    terminators is stored as it is. *)
Lemma panel_of_line line :
  Str.nl_count line < 35 ->
  Str.join (shift_over_35 (Str.split line)) = line.
Proof.
  intros H. unfold shift_over_35.
  rewrite StrFacts.length_split.
  destruct (Nat.ltb_spec 35 (S (Str.nl_count line))); [lia|].
  apply StrFacts.join_split.
Qed.

(** A run of the first branch when the selected row exists and both
    stored tables have the column of its component. *)
Lemma selected_branch_run s c a b :
  at_indices (data_component (source_comp_table s))
             (selected_indices (source_comp_table s)) = Some c ->
  source_meica_ts s !! ("ica_" +:+ Str.pad2 c) = Some a ->
  source_meica_fft s !! ("ica_" +:+ Str.pad2 c) = Some b ->
  selected_branch s = Completed
    {| source_comp_table := source_comp_table s;
       source_meica_ts := source_meica_ts s;
       source_tsplot :=
         {| plot_x := plot_x (source_tsplot s);
            plot_y := copy_loop (length (plot_x (source_tsplot s))) 0 a
                                (plot_y (source_tsplot s)) |};
       source_meica_fft := source_meica_fft s;
       source_fftplot :=
         {| plot_x := plot_x (source_fftplot s);
            plot_y := copy_loop (length (plot_x (source_fftplot s))) 0 b
                                (plot_y (source_fftplot s)) |};
       div_text :=
         Str.join (shift_over_35
                     (Str.split (image_line (outdir s)
                                            ("0" +:+ Str.pad2 c))));
       ts_line_color :=
         at_indices (data_color (source_comp_table s))
                    (selected_indices (source_comp_table s));
       fft_line_color :=
         at_indices (data_color (source_comp_table s))
                    (selected_indices (source_comp_table s));
       outdir := outdir s |}.
Proof.
  intros Hc Ha Hb. unfold selected_branch.
  rewrite Hc. simpl. rewrite Ha. simpl. rewrite Hb. reflexivity.
Qed.

(** The only taps that reach the first branch hit one row, and not the
    first one. *)
Lemma gt_zero_inv idx :
  gt_zero idx = true -> exists k, idx = [k] /\ 0 < k.
Proof.
  destruct idx as [|k [|k' rest]]; simpl; try discriminate.
  unfold gt_zero. simpl. intros H.
  exists k. split; [done|]. by apply Nat.ltb_lt.
Qed.

(** A tap on any row but the first selects it: both traces take the
    stored columns of the row's component and the lines its colour. *)
Lemma tap_on_later_row s k c col a b :
  selected_indices (source_comp_table s) = [k] -> 0 < k ->
  data_component (source_comp_table s) !! k = Some c ->
  data_color (source_comp_table s) !! k = Some col ->
  source_meica_ts s !! ("ica_" +:+ Str.pad2 c) = Some a ->
  source_meica_fft s !! ("ica_" +:+ Str.pad2 c) = Some b ->
  aligned (source_tsplot s) -> aligned (source_fftplot s) ->
  length a = length (plot_x (source_tsplot s)) ->
  length b = length (plot_x (source_fftplot s)) ->
  exists s', tap_callback_jscode s = Completed s'
    /\ plot_y (source_tsplot s') = a
    /\ plot_y (source_fftplot s') = b
    /\ ts_line_color s' = Some col
    /\ fft_line_color s' = Some col.
Proof.
  intros Hi Hk Hc Hcol Ha Hb Hts Hfft Hla Hlb.
  unfold tap_callback_jscode, gt_zero. rewrite Hi. simpl.
  destruct (Nat.ltb_spec 0 k); [|lia].
  erewrite selected_branch_run; [| by rewrite Hi | done | done].
  eexists. split; [reflexivity|]. simpl.
  unfold aligned in *. rewrite Hi. simpl.
  rewrite <- Hts, <- Hfft.
  rewrite !LoopFacts.copy_loop_all by congruence.
  by rewrite Hcol.
Qed.

(** A tap on the first row takes the second branch. *)
Lemma tap_on_first_row s :
  selected_indices (source_comp_table s) = [0] ->
  tap_callback_jscode s = unselected_branch s.
Proof. intros Hi. unfold tap_callback_jscode. by rewrite Hi. Qed.

(** Both branches keep the traces as long as their axes. *)
Lemma tap_keeps_aligned s :
  aligned (source_tsplot s) -> aligned (source_fftplot s) ->
  match tap_callback_jscode s with
  | Completed s' | Thrown _ s' =>
      aligned (source_tsplot s') /\ aligned (source_fftplot s')
  end.
Proof.
  unfold aligned. intros Hts Hfft.
  unfold tap_callback_jscode, selected_branch, unselected_branch, overwrite.
  destruct (gt_zero _); simpl.
  - destruct (source_meica_ts s !! _) as [a|]; simpl.
    + destruct (source_meica_fft s !! _) as [b|]; simpl.
      * rewrite !LoopFacts.length_copy_loop by lia. done.
      * destruct (length (plot_x (source_fftplot s)) =? 0); simpl;
          rewrite !LoopFacts.length_copy_loop by lia; done.
    + destruct (length (plot_x (source_tsplot s)) =? 0); simpl.
      * destruct (source_meica_fft s !! _) as [b|]; simpl.
        -- rewrite !LoopFacts.length_copy_loop by lia. done.
        -- destruct (length (plot_x (source_fftplot s)) =? 0); simpl; done.
      * done.
  - rewrite !LoopFacts.length_zero_loop by lia. done.
Qed.

(** The plot sources are built with traces as long as their axes. *)
Lemma create_ts_plot_aligned n_vol : aligned (_create_ts_plot n_vol).2.
Proof.
  unfold aligned, _create_ts_plot, arange, zeros. simpl.
  by rewrite length_replicate, length_fmap, length_seq.
Qed.

Lemma create_fft_plot_aligned freqs colour plot :
  _create_fft_plot freqs = Return (colour, plot) -> aligned plot.
Proof.
  unfold _create_fft_plot, np_max.
  destruct freqs as [|x rest]; [discriminate|].
  intros [= _ <-]. unfold aligned, zeros. simpl.
  by rewrite length_replicate, length_fmap.
Qed.

(** [_create_fft_plot] returns for every frequency axis with a bin. *)
Lemma create_fft_plot_returns freqs :
  freqs <> [] ->
  _create_fft_plot freqs
  = Return ("#000000", {| plot_x := Num <$> freqs;
                          plot_y := zeros (length freqs) |}).
Proof. by destruct freqs. Qed.

End TapFacts.

(** C1 (the code departs from the claim).  In the report of five
    components the first row of the table source is component 1, drawn
    in the colour of accepted components.  A tap on its point, which
    selects the row of index 0, leaves both traces at zero and both lines
    black instead of showing the stored series and spectrum of the
    component. *)
Theorem tap_on_first_row_shows_nothing :
  data_component (source_comp_table (five_report [0] "")) !! 0 = Some "1"
  /\ data_color (source_comp_table (five_report [0] "")) !! 0
     = Some "#2ecc71"
  /\ five_series !! "ica_01" = Some (series3 4 5 6)
  /\ five_spectra !! "ica_01" = Some [Num 8; Num 2]
  /\ match JS.tap_callback_jscode (five_report [0] "") with
     | Completed s' =>
         plot_y (source_tsplot s') = [Num 0; Num 0; Num 0]
         /\ plot_y (source_fftplot s') = [Num 0; Num 0]
         /\ ts_line_color s' = Some "#000000"
         /\ fft_line_color s' = Some "#000000"
     | Thrown _ _ => False
     end.
Proof. vm_compute. repeat split. Qed.

(** C2, as the claim states it, fails: with an earlier entry in the
    panel, the text after selecting row 3 is not the earlier content with
    the new line appended. *)
Lemma panel_history_is_dropped :
  match JS.tap_callback_jscode
          (five_report [3] ("earlier entry" +:+ Str.LF)) with
  | Completed s' =>
      div_text s'
      <> spec_history_append ("earlier entry" +:+ Str.LF)
                             (JS.line_of (five_report [3] EmptyString))
  | Thrown _ _ => False
  end.
Proof. vm_compute. discriminate. Qed.

(** C2, amended.  The first branch empties the panel before it adds the
    line of the selected component: on every select the panel holds
    exactly that line afterwards, whatever it held before (the line
    having fewer than 35 line terminators, as it has when the output
    directory has none). *)
Theorem select_replaces_panel (s s' : js_env) :
  JS.gt_zero (selected_indices (source_comp_table s)) = true ->
  JS.tap_callback_jscode s = Completed s' ->
  Str.nl_count (JS.line_of s) < 35 ->
  div_text s' = JS.line_of s.
Proof.
  intros Hsel Hrun Hnl.
  unfold JS.tap_callback_jscode in Hrun. rewrite Hsel in Hrun.
  unfold JS.selected_branch in Hrun.
  destruct (JS.overwrite _ _) as [ts|]; [|discriminate].
  destruct (JS.overwrite _ _) as [fft|]; [|discriminate].
  injection Hrun as <-.
  exact (TapFacts.panel_of_line (JS.line_of s) Hnl).
Qed.

Lemma select_replaces_panel_witness :
  div_text (after (JS.tap_callback_jscode
                     (five_report [3] ("earlier entry" +:+ Str.LF))))
  = JS.line_of (five_report [3] ("earlier entry" +:+ Str.LF)).
Proof.
  apply (select_replaces_panel
           (five_report [3] ("earlier entry" +:+ Str.LF))).
  - reflexivity.
  - reflexivity.
  - vm_compute. lia.
Defined.

(** C4.  Every run of the second branch, on traces as long as their
    axes, ends normally with every value of both traces 0, both lines
    black, and the panel reset to the bare line terminator: it holds no
    entry. *)
Theorem deselect_resets (s : js_env) :
  JS.gt_zero (selected_indices (source_comp_table s)) = false ->
  aligned (source_tsplot s) -> aligned (source_fftplot s) ->
  exists s', JS.tap_callback_jscode s = Completed s'
    /\ plot_y (source_tsplot s')
       = replicate (length (plot_x (source_tsplot s))) (Num 0)
    /\ plot_y (source_fftplot s')
       = replicate (length (plot_x (source_fftplot s))) (Num 0)
    /\ ts_line_color s' = Some "#000000"
    /\ fft_line_color s' = Some "#000000"
    /\ div_text s' = Str.LF
    /\ panel_entries (div_text s') = [].
Proof.
  intros Hsel Hts Hfft.
  unfold JS.tap_callback_jscode. rewrite Hsel.
  eexists. split; [reflexivity|]. simpl.
  unfold aligned in *. rewrite <- Hts, <- Hfft.
  rewrite !LoopFacts.zero_loop_all. by repeat split.
Qed.

Lemma deselect_resets_witness :
  exists s',
    JS.tap_callback_jscode (five_report [] "earlier entry") = Completed s'
    /\ plot_y (source_tsplot s') = replicate 3 (Num 0)
    /\ plot_y (source_fftplot s') = replicate 2 (Num 0)
    /\ ts_line_color s' = Some "#000000"
    /\ fft_line_color s' = Some "#000000"
    /\ div_text s' = Str.LF
    /\ panel_entries (div_text s') = [].
Proof.
  apply (deselect_resets (five_report [] "earlier entry")); reflexivity.
Defined.

(** C9.  When a row is selected and the run ends normally, the panel
    refers to the image [comp_] + [0] + the component id padded with
    zeros to two characters + [.png] under [outdir/figures]; for the
    component "3" of the five that is [comp_003.png]. *)
Theorem image_reference_padding (s s' : js_env) (c : string) :
  JS.gt_zero (selected_indices (source_comp_table s)) = true ->
  JS.at_indices (data_component (source_comp_table s))
                (selected_indices (source_comp_table s)) = Some c ->
  JS.tap_callback_jscode s = Completed s' ->
  Str.nl_count (outdir s) = 0 -> Str.nl_count c = 0 ->
  div_text s'
  = "<span><img src='" +:+ outdir s +:+ "/figures/comp_"
      +:+ ("0" +:+ Str.pad2 c) +:+ ".png'"
      +:+ " alt='Component Map' height=1000 width=900><span>" +:+ Str.LF
  /\ Str.pad2 c = Str.zeros_text (2 - String.length c) +:+ c
  /\ (c = "3" -> "0" +:+ Str.pad2 c = "003").
Proof.
  intros Hsel Hc Hrun Hout Hcnl.
  split; [|split; [apply StrFacts.pad2_zeros | by intros ->]].
  unfold JS.tap_callback_jscode in Hrun. rewrite Hsel in Hrun.
  unfold JS.selected_branch in Hrun. rewrite Hc in Hrun.
  destruct (JS.overwrite _ _) as [ts|]; [|discriminate].
  destruct (JS.overwrite _ _) as [fft|]; [|discriminate].
  injection Hrun as <-.
  refine (TapFacts.panel_of_line
            (JS.image_line (outdir s) ("0" +:+ Str.pad2 c)) _).
  unfold JS.image_line.
  rewrite !StrFacts.nl_count_app, StrFacts.nl_count_pad2, Hout, Hcnl.
  simpl. lia.
Qed.

Lemma image_reference_padding_witness :
  div_text (after (JS.tap_callback_jscode (five_report [3] EmptyString)))
  = "<span><img src='/opt/out/figures/comp_003.png'"
      +:+ " alt='Component Map' height=1000 width=900><span>" +:+ Str.LF.
Proof.
  apply (image_reference_padding (five_report [3] EmptyString) _ "3");
    reflexivity.
Defined.

(** C10.  The callback that [tap_callback] builds binds [div] to the
    module-level [div_content]: the result is the same for every value
    passed as [div]. *)
Theorem tap_callback_ignores_div (globals : gmap string pyval)
    (comptable_cds CDS_meica_ts comp_fft_cds plot_ts_cds plot_fft_cds
     ts_line_glyph fft_line_glyph div div' out_dir panel : pyval) :
  globals !! "div_content" = Some panel ->
  tap_callback globals comptable_cds CDS_meica_ts comp_fft_cds plot_ts_cds
               plot_fft_cds ts_line_glyph fft_line_glyph div out_dir
  = tap_callback globals comptable_cds CDS_meica_ts comp_fft_cds plot_ts_cds
                 plot_fft_cds ts_line_glyph fft_line_glyph div' out_dir
  /\ exists cb,
       tap_callback globals comptable_cds CDS_meica_ts comp_fft_cds
                    plot_ts_cds plot_fft_cds ts_line_glyph fft_line_glyph
                    div out_dir = Return cb
       /\ args cb !! "div" = Some panel.
Proof.
  intros Hg. split; [reflexivity|].
  unfold tap_callback, load_global. rewrite Hg.
  eexists. split; [reflexivity|]. reflexivity.
Qed.

Lemma tap_callback_ignores_div_witness :
  tap_callback script_globals (PRef 1) (PRef 2) (PRef 3) (PRef 4) (PRef 5)
               (PRef 6) (PRef 8) (PRef 99) (PStr "/opt/out")
  = tap_callback script_globals (PRef 1) (PRef 2) (PRef 3) (PRef 4) (PRef 5)
                 (PRef 6) (PRef 8) (PRef 7) (PStr "/opt/out")
  /\ exists cb,
       tap_callback script_globals (PRef 1) (PRef 2) (PRef 3) (PRef 4)
                    (PRef 5) (PRef 6) (PRef 8) (PRef 99) (PStr "/opt/out")
       = Return cb
       /\ args cb !! "div" = Some (PRef 7).
Proof.
  apply (tap_callback_ignores_div script_globals); reflexivity.
Defined.

(* ===================================================================== *)
(** * The scaler                                                          *)
(* ===================================================================== *)

Module ScalerFacts.
Import MinMaxScaler.

Lemma fold_min_le_init rest : forall x, (fold_left Qmin rest x <= x)%Q.
Proof.
  induction rest as [|y rest IH]; intros x; simpl; [apply Qle_refl|].
  eapply Qle_trans; [apply IH|apply Q.le_min_l].
Qed.

Lemma fold_min_le_elem rest : forall x y,
  y ∈ rest -> (fold_left Qmin rest x <= y)%Q.
Proof.
  induction rest as [|z rest IH]; intros x y Hy; simpl.
  - by apply elem_of_nil in Hy.
  - apply elem_of_cons in Hy as [->|Hy]; [|by apply IH].
    eapply Qle_trans; [apply fold_min_le_init|apply Q.le_min_r].
Qed.

Lemma fold_max_ge_init rest : forall x, (x <= fold_left Qmax rest x)%Q.
Proof.
  induction rest as [|y rest IH]; intros x; simpl; [apply Qle_refl|].
  eapply Qle_trans; [apply Q.le_max_l|apply IH].
Qed.

Lemma fold_max_ge_elem rest : forall x y,
  y ∈ rest -> (y <= fold_left Qmax rest x)%Q.
Proof.
  induction rest as [|z rest IH]; intros x y Hy; simpl.
  - by apply elem_of_nil in Hy.
  - apply elem_of_cons in Hy as [->|Hy]; [|by apply IH].
    eapply Qle_trans; [apply Q.le_max_r|apply fold_max_ge_init].
Qed.


(** A fit on a column that is not empty succeeds. *)
Lemma fit_nonempty fr x rest : exists f, fit fr (x :: rest) = Return f.
Proof. eexists. reflexivity. Qed.

(** The fitted minimum and maximum bound the column. *)
Lemma fit_bounds fr column f y :
  fit fr column = Return f -> y ∈ column ->
  (data_min_ f <= y)%Q /\ (y <= data_max_ f)%Q.
Proof.
  destruct column as [|x rest]; [discriminate|].
  intros [= <-] Hy. simpl.
  apply elem_of_cons in Hy as [->|Hy].
  - split; [apply fold_min_le_init|apply fold_max_ge_init].
  - split; [by apply fold_min_le_elem|by apply fold_max_ge_elem].
Qed.



End ScalerFacts.

(* ===================================================================== *)
(** * The frame and the returned columns                                  *)
(* ===================================================================== *)

Module FrameFacts.

Lemma insert_perm a rows : Frame.insert a rows ≡ₚ a :: rows.
Proof.
  induction rows as [|b rest IH]; simpl; [done|].
  destruct (Frame.key_le a b); [done|].
  rewrite IH. apply Permutation_swap.
Qed.

(** Sorting reorders the rows and nothing else. *)
Lemma sort_values_perm rows : Frame.sort_values rows ≡ₚ rows.
Proof.
  induction rows as [|a rest IH]; simpl; [done|].
  by rewrite insert_perm, IH.
Qed.

(** A column of the frame read back from its rows. *)
Lemma column_of_rows {A} (build : nat -> Frame.row) (proj : Frame.row -> A)
    (column : list A) (d : A) :
  (forall i, proj (build i) = nth i column d) ->
  proj <$> (build <$> seq 0 (length column)) = column.
Proof.
  intros Hp. apply list_eq. intros i.
  rewrite !list_lookup_fmap.
  destruct (decide (i < length column)) as [Hi|Hi].
  - rewrite lookup_seq_lt by done. simpl. rewrite Hp.
    destruct (nth_lookup_or_length column i d) as [->|]; [done|lia].
  - rewrite lookup_seq_ge by lia. simpl.
    symmetry. apply lookup_ge_None. lia.
Qed.

(** The division for the angles returns the shares of a sum that is not
    0, and raises for a sum of 0 of a column with an entry. *)
Lemma angle_column_inv column angle :
  angle_column column = Return angle ->
  angle = angles column
  /\ (column <> [] -> ~ (Series.sum column == 0)%Q).
Proof.
  unfold angle_column. destruct column as [|x rest].
  - intros [= <-]. by split.
  - destruct (Qeq_bool (Series.sum (x :: rest)) 0) eqn:E; [discriminate|].
    intros [= <-]. split; [done|]. intros _ H.
    apply Qeq_bool_iff in H. congruence.
Qed.



(** The parts of a successful run of [create_data_struct]. *)
Lemma create_data_struct_inv df cm cds :
  create_data_struct df cm = Return cds ->
  exists f0 color frame,
    MinMaxScaler.fit (4, 20)%Q (Comptable.var_exp <$> df) = Return f0
    /\ colors_of cm (Comptable.classification <$> df) = Return color
    /\ frame ≡ₚ
         frame_row df
           (MinMaxScaler.transform f0 (Comptable.var_exp <$> df))
           (Series.rank_descending (Comptable.rho <$> df))
           (Series.rank_descending (Comptable.kappa <$> df))
           (Series.rank_descending (Comptable.var_exp <$> df))
           color (angles (Comptable.var_exp <$> df))
         <$> seq 0 (length df)
    /\ cds = {| CDS.kappa := Frame.kappa <$> frame;
                CDS.rho := Frame.rho <$> frame;
                CDS.varexp := Frame.var_exp <$> frame;
                CDS.kappa_rank := Frame.kappa_rank <$> frame;
                CDS.rho_rank := Frame.rho_rank <$> frame;
                CDS.varexp_rank := Frame.var_exp_rank <$> frame;
                CDS.component :=
                  (fun r => pretty (Frame.component r)) <$> frame;
                CDS.color := Frame.color <$> frame;
                CDS.size := Frame.var_exp_size <$> frame;
                CDS.classif := Frame.classification <$> frame;
                CDS.angle := Frame.angle <$> frame |}.
Proof.
  unfold create_data_struct, MinMaxScaler.fit_transform.
  rewrite <- !list_fmap_compose.
  change (fst ∘ _) with Comptable.var_exp.
  change (snd ∘ _) with Comptable.normalized_variance_explained.
  destruct (MinMaxScaler.fit _ (Comptable.var_exp <$> df))
    as [f0|] eqn:Hf0; simpl; [|discriminate].
  destruct (MinMaxScaler.fit _
              (Comptable.normalized_variance_explained <$> df))
    as [f1|]; simpl; [|discriminate].
  destruct (colors_of cm _) as [color|] eqn:Hcol; simpl; [|discriminate].
  destruct (angle_column _) as [angle|] eqn:Hangle; simpl; [|discriminate].
  apply angle_column_inv in Hangle as [-> _].
  intros [= <-].
  rewrite fst_zip
    by (unfold MinMaxScaler.transform; rewrite !length_fmap; lia).
  eexists f0, color, _. split; [done|]. split; [done|].
  split; [apply sort_values_perm|done].
Qed.


Lemma bind_Return {A B} (a : A) (k : A -> py B) : Return a ≫= k = k a.
Proof. reflexivity. Qed.




Lemma colors_of_length cm labels color :
  colors_of cm labels = Return color -> length color = length labels.
Proof.
  revert color. induction labels as [|i rest IH]; intros color; simpl.
  - by intros [= <-].
  - destruct (cm !! i); [|discriminate].
    destruct (colors_of cm rest) as [cs|]; [|discriminate].
    simpl. intros [= <-]. simpl. f_equal. by apply IH.
Qed.








End FrameFacts.

(* ===================================================================== *)
(** * Ranks                                                               *)
(* ===================================================================== *)

Module RankFacts.
Import Series.

Lemma count_le (p q : Q -> bool) column :
  (forall y, p y = true -> q y = true) -> count p column <= count q column.
Proof.
  intros Hpq. induction column as [|y rest IH]; simpl; [done|].
  specialize (Hpq y).
  destruct (p y), (q y); try lia; by specialize (Hpq eq_refl).
Qed.

Lemma count_lt (p q : Q -> bool) column z :
  (forall y, p y = true -> q y = true) ->
  z ∈ column -> p z = false -> q z = true ->
  count p column < count q column.
Proof.
  intros Hpq Hz Hp Hq. induction column as [|y rest IH]; simpl.
  - by apply elem_of_nil in Hz.
  - apply elem_of_cons in Hz as [<-|Hz].
    + rewrite Hp, Hq. pose proof (count_le p q rest Hpq). lia.
    + specialize (IH Hz). pose proof (Hpq y) as Hy.
      destruct (p y), (q y); try lia; by specialize (Hy eq_refl).
Qed.

Lemma count_true column : count (fun _ => true) column = length column.
Proof. induction column as [|y rest IH]; simpl; [done|]. by rewrite IH. Qed.

Lemma count_none (p : Q -> bool) column :
  forallb (fun y => negb (p y)) column = true -> count p column = 0.
Proof.
  induction column as [|y rest IH]; simpl; [done|].
  intros [Hy Hrest]%andb_prop. rewrite (IH Hrest).
  by destruct (p y).
Qed.

Lemma Qlt_bool_true x y : Qlt_bool x y = true <-> (x < y)%Q.
Proof.
  unfold Qlt_bool. rewrite negb_true_iff.
  split.
  - intros H. apply Qnot_le_lt. intros Hle.
    apply Qle_bool_iff in Hle. congruence.
  - intros H. destruct (Qle_bool y x) eqn:E; [|done].
    apply Qle_bool_iff in E. exfalso. by apply (Qlt_not_le x y).
Qed.

(** A smaller value has more values above it. *)
Lemma greater_than_strict column x y :
  y ∈ column -> (x < y)%Q ->
  greater_than column y < greater_than column x.
Proof.
  intros Hy Hxy. unfold greater_than.
  apply (count_lt _ _ column y); [|done| |].
  - intros z Hz. apply Qlt_bool_true in Hz. apply Qlt_bool_true.
    by apply Qlt_trans with y.
  - destruct (Qlt_bool y y) eqn:E; [|done].
    apply Qlt_bool_true in E. by apply Qlt_irrefl in E.
  - by apply Qlt_bool_true.
Qed.

(** Fewer values are above a value of the column than the column has. *)
Lemma greater_than_bound column x :
  x ∈ column -> greater_than column x < length column.
Proof.
  intros Hx. rewrite <- count_true. unfold greater_than.
  apply (count_lt _ _ column x); [done|done| |done].
  destruct (Qlt_bool x x) eqn:E; [|done].
  apply Qlt_bool_true in E. by apply Qlt_irrefl in E.
Qed.

Lemma all_distinct_cons x rest :
  all_distinct (x :: rest) = true ->
  (forall y, y ∈ rest -> Qeq_bool x y = false) /\ all_distinct rest = true.
Proof.
  simpl. intros [Hx Hrest]%andb_prop. split; [|done].
  intros y Hy. rewrite forallb_forall in Hx.
  apply negb_true_iff, Hx. by apply list_elem_of_In.
Qed.

(** In a column without equal values each value equals itself only. *)
Lemma equal_to_distinct column x :
  all_distinct column = true -> x ∈ column -> equal_to column x = 1.
Proof.
  unfold equal_to.
  induction column as [|a rest IH]; intros Hd Hx.
  - by apply elem_of_nil in Hx.
  - pose proof (all_distinct_cons _ _ Hd) as [Ha Hrest].
    simpl. apply elem_of_cons in Hx as [->|Hx].
    + rewrite Qeq_bool_refl. rewrite count_none; [done|].
      apply forallb_forall. intros y Hy.
      apply negb_true_iff, Ha. by apply list_elem_of_In.
    + rewrite Qeq_bool_comm, (Ha x Hx). simpl. by apply IH.
Qed.

(** Without equal values the rank is one more than the number of
    greater values. *)
Lemma rank_of_distinct column x :
  all_distinct column = true -> x ∈ column ->
  Qred (rank_of column x) = of_nat (S (greater_than column x)).
Proof.
  intros Hd Hx. unfold rank_of.
  rewrite (equal_to_distinct _ _ Hd Hx).
  unfold of_nat.
  etransitivity; [|apply inject_Z_Qred]. apply Qred_complete.
  rewrite (Nat2Z.inj_succ (greater_than column x)).
  rewrite <- Z.add_1_r, inject_Z_plus.
  change (inject_Z (Z.of_nat 1)) with 1%Q. change (inject_Z 1) with 1%Q.
  field.
Qed.

Lemma positions_nodup column sub :
  all_distinct sub = true -> (forall x, x ∈ sub -> x ∈ column) ->
  NoDup ((fun x => S (greater_than column x)) <$> sub).
Proof.
  induction sub as [|a rest IH]; intros Hd Hin; simpl.
  - constructor.
  - pose proof (all_distinct_cons _ _ Hd) as [Ha Hrest].
    constructor.
    + intros (y & Heq & Hy)%list_elem_of_fmap.
      injection Heq as Heq.
      pose proof (Ha y Hy) as Hne. apply Qeq_bool_neq in Hne.
      assert (a ∈ column) as Hac by (apply Hin, list_elem_of_here).
      assert (y ∈ column) as Hyc by (by apply Hin, list_elem_of_further).
      destruct (Q_dec a y) as [[Hlt|Hgt]|Heq']; [| |done].
      * pose proof (greater_than_strict column a y Hyc Hlt). lia.
      * pose proof (greater_than_strict column y a Hac Hgt). lia.
    + apply IH; [done|]. intros x Hx. by apply Hin, list_elem_of_further.
Qed.

(** The ranks of a column without equal values are the integers from 1
    to its length, each once. *)
Lemma rank_descending_distinct column :
  all_distinct column = true ->
  Qred <$> rank_descending column ≡ₚ one_to (length column).
Proof.
  intros Hd. unfold rank_descending, one_to.
  rewrite <- list_fmap_compose.
  assert (Heq : Qred ∘ rank_of column <$> column
                = of_nat <$> ((fun x => S (greater_than column x))
                                <$> column)).
  { rewrite <- list_fmap_compose. apply list_fmap_ext.
    intros i x Hx. simpl. apply rank_of_distinct; [done|].
    by apply list_elem_of_lookup_2 in Hx. }
  rewrite Heq. apply fmap_Permutation.
  apply submseteq_length_Permutation.
  - apply NoDup_submseteq; [by apply positions_nodup|].
    intros k (x & -> & Hx)%list_elem_of_fmap.
    apply elem_of_seq. pose proof (greater_than_bound column x Hx). lia.
  - by rewrite length_seq, length_fmap.
Qed.

End RankFacts.

(* ===================================================================== *)
(** * The returned columns, row by row                                    *)
(* ===================================================================== *)

Module TableFacts.

Lemma nth_fmap_lookup {A B} (f : A -> B) (l : list A) i x d :
  l !! i = Some x -> nth i (f <$> l) d = f x.
Proof. intros H. apply nth_lookup_Some. by rewrite list_lookup_fmap, H. Qed.

Lemma nth_fmap_default {A B} (f : A -> B) (l : list A) i d :
  nth i (f <$> l) (f d) = f (nth i l d).
Proof.
  revert i. induction l as [|x l IH]; intros [|i]; simpl; auto.
Qed.

(** What holds of every row built from the columns holds of every row
    of the sorted frame. *)
Lemma frame_forall (P : Frame.row -> Prop) build n frame :
  frame ≡ₚ build <$> seq 0 n ->
  (forall i, i < n -> P (build i)) -> Forall P frame.
Proof.
  intros Hp HP. rewrite Hp. apply Forall_fmap, Forall_forall.
  intros i Hi%elem_of_seq. apply HP. lia.
Qed.

(** A returned column is the column it was assigned from, reordered. *)
Lemma frame_column {A} (proj : Frame.row -> A) build n column d frame :
  frame ≡ₚ build <$> seq 0 n -> length column = n ->
  (forall i, proj (build i) = nth i column d) ->
  proj <$> frame ≡ₚ column.
Proof.
  intros Hp <- H. rewrite Hp.
  by rewrite (FrameFacts.column_of_rows build proj column d).
Qed.

(** Two returned columns side by side. *)
Lemma frame_rows2 {A B} (P : A -> B -> Prop)
    (f : Frame.row -> A) (g : Frame.row -> B) frame :
  Forall (fun r => P (f r) (g r)) frame ->
  Forall2 P (f <$> frame) (g <$> frame).
Proof.
  intros H. apply Forall2_fmap. induction H; constructor; done.
Qed.

Lemma Rsum_perm (l l' : list R) : l ≡ₚ l' -> Rsum l = Rsum l'.
Proof.
  induction 1 as [|x l l' _ IH|x y l|l l' l'' _ IH1 _ IH2]; simpl.
  - done.
  - by rewrite IH.
  - lra.
  - congruence.
Qed.

Lemma Rsum_cons x (l : list R) : Rsum (x :: l) = (x + Rsum l)%R.
Proof. reflexivity. Qed.

Lemma Q2R_sum column :
  Q2R (Series.sum column) = Rsum (Q2R <$> column).
Proof.
  induction column as [|x rest IH].
  - unfold Q2R. simpl. lra.
  - rewrite fmap_cons, Rsum_cons, <- IH. apply Q2R_plus.
Qed.

Lemma Rsum_angle_of total column :
  Rsum (angle_of total <$> column)
  = (Rsum (Q2R <$> column) / Q2R total * 2 * PI)%R.
Proof.
  induction column as [|x rest IH].
  - simpl. unfold Rdiv. ring.
  - rewrite !fmap_cons, !Rsum_cons, IH. unfold angle_of, Rdiv. ring.
Qed.

(** The angles of a column with a total that is not zero add up to a
    full turn. *)
Lemma Rsum_angles column :
  (0 < Series.sum column)%Q -> Rsum (angles column) = (2 * PI)%R.
Proof.
  intros Hpos. unfold angles.
  rewrite Rsum_angle_of, <- Q2R_sum.
  apply Qlt_Rlt in Hpos.
  replace (Q2R 0) with 0%R in Hpos by (unfold Q2R; simpl; lra).
  field. lra.
Qed.

End TableFacts.

(* ===================================================================== *)
(** * The code run on the small reports                                   *)
(* ===================================================================== *)

Module Examples.

Example gt_zero_of_first_row : JS.gt_zero [0] = false.
Proof. reflexivity. Qed.

Example gt_zero_of_no_row : JS.gt_zero [] = false.
Proof. reflexivity. Qed.

Example gt_zero_of_later_row : JS.gt_zero [3] = true.
Proof. reflexivity. Qed.

Example gt_zero_of_two_rows : JS.gt_zero [2; 3] = false.
Proof. reflexivity. Qed.

Example pad2_of_3 : Str.pad2 "3" = "03".
Proof. reflexivity. Qed.

Example zfill2_of_12 : Str.zfill2 12 = "12".
Proof. reflexivity. Qed.

Example zfill2_of_123 : ica_name 123 = "ica_123".
Proof. reflexivity. Qed.

Example split_of_two_lines :
  Str.split ("a" +:+ Str.LF +:+ "b" +:+ Str.LF) = ["a"; "b"; ""].
Proof. reflexivity. Qed.

(** The rows of the five components come out sorted by classification
    and variance explained. *)
Example five_rows_sorted :
  CDS.component five_cds = ["1"; "0"; "4"; "3"; "2"]
  /\ Qred <$> CDS.varexp five_cds = [25; 40; 8; 12; 15]%Q.
Proof. split; reflexivity. Qed.

Example five_sizes :
  Qred <$> CDS.size five_cds = [25 # 2; 20; 4; 6; 15 # 2]%Q.
Proof. reflexivity. Qed.

(** A column of equal values is scaled to the lower end of the range. *)
Example equal_variance_sizes :
  Qred <$> CDS.size equal_variance_cds = [4; 4; 4]%Q.
Proof. reflexivity. Qed.

Example ranks_with_a_tie :
  Qred <$> Series.rank_descending [5; 5; 3]%Q = [3 # 2; 3 # 2; 3]%Q.
Proof. reflexivity. Qed.

Example empty_table_is_refused :
  create_data_struct [] color_mapping
  = Raise (ValueError "Found array with 0 sample(s)").
Proof. reflexivity. Qed.

(** A table whose variance explained adds up to 0 is refused by the
    division for the angles. *)
Lemma zero_variance_is_refused :
  create_data_struct zero_variance_components color_mapping
  = Raise ZeroDivisionError.
Proof. reflexivity. Qed.

(** The spectrum plot of the report of five components, and the plot
    of no frequency at all. *)
Lemma five_fft_plot_built :
  _create_fft_plot [0; 1 # 4]%Q = Return five_fft_plot.
Proof. reflexivity. Qed.

Lemma empty_axis_is_refused :
  exists e, _create_fft_plot [] = Raise e /\ exn_class e = "ValueError".
Proof. by eexists. Qed.

End Examples.

(* ===================================================================== *)
(** * The component table preparer: claims                                *)
(* ===================================================================== *)

Module Scaler64Facts.
Import PrimFloat.




End Scaler64Facts.

Section SizesInBothArithmetics.
Import PrimFloat.




End SizesInBothArithmetics.

(** C3, as the claim states it, fails: two components with one kappa
    both get the rank 3/2, and the kappa ranks are not the integers 1
    and 2. *)
Lemma tied_values_share_a_rank :
  match create_data_struct tied_components color_mapping with
  | Return cds =>
      Qred <$> CDS.kappa_rank cds = [3 # 2; 3 # 2]%Q
      /\ ~ (Qred <$> CDS.kappa_rank cds ≡ₚ one_to 2)
  | Raise _ => False
  end.
Proof.
  vm_compute. split; [reflexivity|].
  intros Hp.
  assert (Hin : (1 # 1)%Q ∈ [3 # 2; 3 # 2]%Q).
  { rewrite Hp. apply list_elem_of_here. }
  apply elem_of_cons in Hin as [Hin|Hin]; [discriminate|].
  apply elem_of_cons in Hin as [Hin|Hin]; [discriminate|].
  by apply elem_of_nil in Hin.
Qed.

(** C3, amended.  In every returned table each rank is the rank pandas
    gives the value of its row in its column, greatest first, equal
    values sharing the average of their positions; a rank column whose
    values are pairwise different is, as numbers, a permutation of the
    integers 1..N. *)
Theorem distinct_values_rank_1_to_N (df : list Comptable.row)
    (cm : gmap string string) (cds : CDS.t) :
  create_data_struct df cm = Return cds ->
  (all_distinct (Comptable.kappa <$> df) = true ->
   Qred <$> CDS.kappa_rank cds ≡ₚ one_to (length df))
  /\ (all_distinct (Comptable.rho <$> df) = true ->
      Qred <$> CDS.rho_rank cds ≡ₚ one_to (length df))
  /\ (all_distinct (Comptable.var_exp <$> df) = true ->
      Qred <$> CDS.varexp_rank cds ≡ₚ one_to (length df))
  /\ Forall2 (fun v r => r = Series.rank_of (Comptable.kappa <$> df) v)
             (CDS.kappa cds) (CDS.kappa_rank cds)
  /\ Forall2 (fun v r => r = Series.rank_of (Comptable.rho <$> df) v)
             (CDS.rho cds) (CDS.rho_rank cds)
  /\ Forall2 (fun v r => r = Series.rank_of (Comptable.var_exp <$> df) v)
             (CDS.varexp cds) (CDS.varexp_rank cds).
Proof.
  intros Hrun.
  destruct (FrameFacts.create_data_struct_inv _ _ _ Hrun)
    as (f0 & color & frame & _ & _ & Hperm & ->).
  simpl.
  assert (Hcolumn : forall (proj : Frame.row -> Q) (column : list Q),
            (forall i, proj (frame_row df
                (MinMaxScaler.transform f0 (Comptable.var_exp <$> df))
                (Series.rank_descending (Comptable.rho <$> df))
                (Series.rank_descending (Comptable.kappa <$> df))
                (Series.rank_descending (Comptable.var_exp <$> df))
                color (angles (Comptable.var_exp <$> df)) i)
              = nth i (Series.rank_descending column) 0%Q) ->
            length column = length df ->
            all_distinct column = true ->
            Qred <$> (proj <$> frame) ≡ₚ one_to (length df)).
  { intros proj column Hproj Hlen Hd.
    rewrite (TableFacts.frame_column proj _ _
               (Series.rank_descending column) 0%Q frame Hperm);
      [| by unfold Series.rank_descending; rewrite length_fmap | done].
    rewrite <- Hlen. by apply RankFacts.rank_descending_distinct. }
  assert (Hrow : forall (get : Comptable.row -> Q)
                        (val rank : Frame.row -> Q),
            (forall i, val (frame_row df
                (MinMaxScaler.transform f0 (Comptable.var_exp <$> df))
                (Series.rank_descending (Comptable.rho <$> df))
                (Series.rank_descending (Comptable.kappa <$> df))
                (Series.rank_descending (Comptable.var_exp <$> df))
                color (angles (Comptable.var_exp <$> df)) i)
              = nth i (get <$> df) 0%Q) ->
            (forall i, rank (frame_row df
                (MinMaxScaler.transform f0 (Comptable.var_exp <$> df))
                (Series.rank_descending (Comptable.rho <$> df))
                (Series.rank_descending (Comptable.kappa <$> df))
                (Series.rank_descending (Comptable.var_exp <$> df))
                color (angles (Comptable.var_exp <$> df)) i)
              = nth i (Series.rank_descending (get <$> df)) 0%Q) ->
            Forall2 (fun v r => r = Series.rank_of (get <$> df) v)
                    (val <$> frame) (rank <$> frame)).
  { intros get val rank Hval Hrank.
    apply TableFacts.frame_rows2.
    eapply TableFacts.frame_forall; [exact Hperm|].
    intros i Hi. rewrite Hval, Hrank.
    destruct (lookup_lt_is_Some_2 df i Hi) as [x Hx].
    unfold Series.rank_descending.
    rewrite (TableFacts.nth_fmap_lookup _ _ i (get x))
      by (by rewrite list_lookup_fmap, Hx).
    by rewrite (TableFacts.nth_fmap_lookup _ _ i x). }
  repeat split.
  - apply (Hcolumn Frame.kappa_rank); [done|by rewrite length_fmap].
  - apply (Hcolumn Frame.rho_rank); [done|by rewrite length_fmap].
  - apply (Hcolumn Frame.var_exp_rank); [done|by rewrite length_fmap].
  - apply (Hrow Comptable.kappa Frame.kappa Frame.kappa_rank); [|done].
    intros i. symmetry.
    apply (TableFacts.nth_fmap_default Comptable.kappa df i blank_row).
  - apply (Hrow Comptable.rho Frame.rho Frame.rho_rank); [|done].
    intros i. symmetry.
    apply (TableFacts.nth_fmap_default Comptable.rho df i blank_row).
  - apply (Hrow Comptable.var_exp Frame.var_exp Frame.var_exp_rank); [|done].
    intros i. symmetry.
    apply (TableFacts.nth_fmap_default Comptable.var_exp df i blank_row).
Qed.

Lemma distinct_values_rank_1_to_N_witness :
  Qred <$> CDS.kappa_rank five_cds ≡ₚ one_to 5
  /\ Qred <$> CDS.rho_rank five_cds ≡ₚ one_to 5
  /\ Qred <$> CDS.varexp_rank five_cds ≡ₚ one_to 5
  /\ Qred <$> CDS.varexp_rank five_cds = [2; 1; 5; 4; 3]%Q.
Proof.
  destruct (distinct_values_rank_1_to_N five_components color_mapping
              five_cds eq_refl) as (Hk & Hr & Hv & _).
  split; [apply Hk; reflexivity|].
  split; [apply Hr; reflexivity|].
  split; [apply Hv; reflexivity|].
  reflexivity.
Defined.




(** C8.  Whenever [create_data_struct] returns for a table whose total
    variance explained is positive, the returned angles add up to
    [2 * PI], and the angle of every row is its share of the total
    variance explained times [2 * PI]. *)
Theorem pie_angles_sum_to_full_turn (df : list Comptable.row)
    (cm : gmap string string) (cds : CDS.t) :
  create_data_struct df cm = Return cds ->
  (0 < Series.sum (Comptable.var_exp <$> df))%Q ->
  Rsum (CDS.angle cds) = (2 * PI)%R
  /\ Forall2 (fun v a =>
                a = (Q2R v / Q2R (Series.sum (Comptable.var_exp <$> df))
                     * (2 * PI))%R)
             (CDS.varexp cds) (CDS.angle cds).
Proof.
  intros Hrun Hpos.
  destruct (FrameFacts.create_data_struct_inv _ _ _ Hrun)
    as (f0 & color & frame & _ & _ & Hperm & ->).
  simpl. split.
  - rewrite (TableFacts.Rsum_perm _ (angles (Comptable.var_exp <$> df))).
    + by apply TableFacts.Rsum_angles.
    + eapply (TableFacts.frame_column _ _ _ _ 0%R); [exact Hperm| |done].
      unfold angles. by rewrite !length_fmap.
  - apply TableFacts.frame_rows2.
    eapply TableFacts.frame_forall; [exact Hperm|].
    intros i Hi. simpl.
    destruct (lookup_lt_is_Some_2 df i Hi) as [x Hx].
    rewrite (nth_lookup_Some df i _ x Hx).
    unfold angles.
    rewrite (TableFacts.nth_fmap_lookup _ _ i (Comptable.var_exp x))
      by (by rewrite list_lookup_fmap, Hx).
    unfold angle_of. ring.
Qed.

Lemma pie_angles_sum_to_full_turn_witness :
  Rsum (CDS.angle five_cds) = (2 * PI)%R
  /\ Forall2 (fun v a =>
                a = (Q2R v / Q2R (Series.sum
                                    (Comptable.var_exp <$> five_components))
                     * (2 * PI))%R)
             (CDS.varexp five_cds) (CDS.angle five_cds).
Proof.
  apply (pie_angles_sum_to_full_turn five_components color_mapping five_cds);
    reflexivity.
Defined.

(* ===================================================================== *)
(** * The spectrum estimator: claims                                      *)
(* ===================================================================== *)

Module SpectrumFacts.

Lemma ica_name_not_index c : "index" <> ica_name c.
Proof. unfold ica_name. simpl. discriminate. Qed.

(** What the loop leaves: the columns it names hold the spectra of
    their series, all as long as the index; the other columns are as
    before.  It raises for a missing series or for a spectrum of
    another length than the index. *)
Lemma fill_spectra_spec gs data tr cs : forall df freqs,
  match fill_spectra gs data tr cs df freqs with
  | Return (df', _) =>
      index_len df' = index_len df
      /\ (forall name, name ∈ ica_name <$> cs ->
          exists ts, data !! name = Some ts
            /\ columns df' !! name = Some (Some <$> (gs ts tr).1)
            /\ length (gs ts tr).1 = index_len df)
      /\ (forall name, name ∉ ica_name <$> cs ->
          columns df' !! name = columns df !! name)
  | Raise e =>
      (exn_class e = "KeyError" /\ data !! exn_arg e = None)
      \/ (exn_class e = "ValueError"
          /\ exists c ts, c ∈ cs /\ data !! ica_name c = Some ts
               /\ length (gs ts tr).1 <> index_len df)
  end.
Proof.
  induction cs as [|c rest IH]; intros df freqs; simpl.
  - split; [done|]. split; [|done].
    intros name Hn. by apply elem_of_nil in Hn.
  - unfold getitem.
    destruct (data !! ica_name c) as [ts|] eqn:Hts; simpl;
      [|by left].
    destruct (gs ts tr) as [spectrum freqs'] eqn:Hgs.
    unfold setitem.
    destruct (Nat.eqb_spec (length spectrum) (index_len df)) as [Hlen|Hlen];
      simpl.
    + specialize (IH {| index_len := index_len df;
                        columns := <[ica_name c := Some <$> spectrum]>
                                     (columns df) |} freqs').
      destruct (fill_spectra gs data tr rest _ freqs') as [[df' fr]|e].
      * destruct IH as (Hidx & Hin & Hout). simpl in *.
        split; [done|]. split.
        -- intros name Hn.
           destruct (decide (name ∈ ica_name <$> rest)) as [Hr|Hr];
             [by apply Hin|].
           apply elem_of_cons in Hn as [->|Hn]; [|done].
           exists ts. rewrite Hgs. simpl.
           rewrite (Hout _ Hr), lookup_insert_eq. done.
        -- intros name Hn. apply not_elem_of_cons in Hn as [Hne Hr].
           by rewrite (Hout _ Hr), lookup_insert_ne.
      * destruct IH as [IH|(Hc & c' & ts' & Hin & Hts' & Hl)];
          [by left|right].
        split; [done|]. exists c', ts'.
        split; [by apply list_elem_of_further|done].
    + right. split; [done|]. exists c, ts.
      split; [apply list_elem_of_here|].
      split; [done|]. by rewrite Hgs.
Qed.

End SpectrumFacts.

(** C7, as the claim states it, fails on the class of the exception:
    with a series of four samples and one of eight, whose spectra have
    three and five bins, the run raises the [ValueError] of the column
    assignment, not a [DataFormatError]. *)
Lemma ragged_series_raise_ValueError :
  match _spectrum_data_src one_sided_spectrum ragged_series 2 2 with
  | Return _ => False
  | Raise e => exn_class e = "ValueError"
               /\ exn_class e <> "DataFormatError"
  end.
Proof. vm_compute. split; [reflexivity|discriminate]. Qed.

(** C7, amended.  Whenever [_spectrum_data_src] returns, the column of
    every component holds the spectrum of its series and all these
    spectra have the number of bins of the spectrum of component 0.
    Otherwise it raised a [KeyError] for a series that is missing, or
    the [ValueError] of the column assignment for a component whose
    spectrum has another number of bins; so it raises whenever two
    spectra differ in length.  The lengths of the series themselves are
    not compared. *)
Theorem spectra_share_their_bins
    (get_spectrum : list Q -> Q -> list Q * list Q)
    (data : gmap string (list Q)) (tr : Q) (n_comps : nat) :
  match _spectrum_data_src get_spectrum data tr n_comps with
  | Return (cds, _) =>
      exists ts0, data !! "ica_00" = Some ts0
        /\ forall c, c < n_comps ->
             exists ts, data !! ica_name c = Some ts
               /\ cds !! ica_name c = Some (Some <$> (get_spectrum ts tr).1)
               /\ length (get_spectrum ts tr).1
                  = length (get_spectrum ts0 tr).1
  | Raise e =>
      (exn_class e = "KeyError" /\ data !! exn_arg e = None)
      \/ (exn_class e = "ValueError"
          /\ exists c ts0 ts, c < n_comps
               /\ data !! "ica_00" = Some ts0
               /\ data !! ica_name c = Some ts
               /\ length (get_spectrum ts tr).1
                  <> length (get_spectrum ts0 tr).1)
  end.
Proof.
  unfold _spectrum_data_src, getitem.
  destruct (data !! "ica_00") as [ts0|] eqn:Hts0; simpl; [|by left].
  destruct (get_spectrum ts0 tr) as [spectrum freqs] eqn:Hgs. simpl.
  pose proof (SpectrumFacts.fill_spectra_spec get_spectrum data tr
                (seq 0 n_comps)
                (empty_frame (ica_name <$> seq 0 n_comps) (length spectrum))
                freqs) as Hfill.
  destruct (fill_spectra get_spectrum data tr (seq 0 n_comps) _ freqs)
    as [[df' fr]|e]; simpl.
  - destruct Hfill as (_ & Hin & _). exists ts0. split; [done|].
    intros c Hc.
    destruct (Hin (ica_name c)) as (ts & Hts & Hcol & Hlen).
    { apply list_elem_of_fmap. exists c. split; [done|].
      apply elem_of_seq. lia. }
    exists ts. split; [done|]. split; [|by rewrite Hlen, Hgs].
    unfold ColumnDataSource_of.
    rewrite lookup_insert_ne by apply SpectrumFacts.ica_name_not_index.
    done.
  - destruct Hfill as [Hk|(Hv & c & ts & Hc & Hts & Hlen)]; [by left|right].
    split; [done|]. exists c, ts0, ts.
    apply elem_of_seq in Hc. simpl in Hlen.
    split; [lia|]. by rewrite Hgs.
Qed.

Lemma spectra_share_their_bins_witness :
  match _spectrum_data_src one_sided_spectrum even_series 2 2 with
  | Return (cds, _) =>
      exists ts0, even_series !! "ica_00" = Some ts0
        /\ forall c, c < 2 ->
             exists ts, even_series !! ica_name c = Some ts
               /\ cds !! ica_name c
                  = Some (Some <$> (one_sided_spectrum ts 2).1)
               /\ length (one_sided_spectrum ts 2).1
                  = length (one_sided_spectrum ts0 2).1
  | Raise e =>
      (exn_class e = "KeyError" /\ even_series !! exn_arg e = None)
      \/ (exn_class e = "ValueError"
          /\ exists c ts0 ts, c < 2
               /\ even_series !! "ica_00" = Some ts0
               /\ even_series !! ica_name c = Some ts
               /\ length (one_sided_spectrum ts 2).1
                  <> length (one_sided_spectrum ts0 2).1)
  end.
Proof.
  exact (spectra_share_their_bins one_sided_spectrum even_series 2 2).
Defined.

(* ===================================================================== *)
(** * Further properties of the callback                                  *)
(* ===================================================================== *)

Module TapMore.
Import JS.

(** On a trace as long as its axis the copying loop reads the source at
    every index of the axis and keeps nothing of the trace. *)
Lemma copy_loop_aligned (src y : array) :
  copy_loop (length y) 0 src y
  = (fun i => to_number (js_get src i)) <$> seq 0 (length y).
Proof.
  apply list_eq. intros j.
  rewrite LoopFacts.lookup_copy_loop by lia.
  rewrite list_lookup_fmap.
  case_decide as Hj.
  - rewrite lookup_seq_lt by lia. done.
  - rewrite lookup_seq_ge by lia. apply lookup_ge_None_2. lia.
Qed.

(** One run leaves the table, the stored series and spectra, the axes
    and the output directory as they are. *)
Lemma run_keeps_report s :
  same_report s (after (tap_callback_jscode s)).
Proof.
  unfold same_report, tap_callback_jscode, selected_branch,
    unselected_branch, overwrite.
  destruct (gt_zero _); simpl; [|done].
  destruct (source_meica_ts s !! _) as [a|]; simpl.
  - destruct (source_meica_fft s !! _) as [b|]; simpl; [done|].
    by destruct (length (plot_x (source_fftplot s)) =? 0).
  - destruct (length (plot_x (source_tsplot s)) =? 0); simpl; [|done].
    destruct (source_meica_fft s !! _) as [b|]; simpl; [done|].
    by destruct (length (plot_x (source_fftplot s)) =? 0).
Qed.

Lemma tap_keeps_report s idx :
  source_comp_table (tap s idx)
  = source_comp_table (with_selected s idx)
  /\ source_meica_ts (tap s idx) = source_meica_ts s
  /\ source_meica_fft (tap s idx) = source_meica_fft s
  /\ plot_x (source_tsplot (tap s idx)) = plot_x (source_tsplot s)
  /\ plot_x (source_fftplot (tap s idx)) = plot_x (source_fftplot s)
  /\ outdir (tap s idx) = outdir s.
Proof.
  destruct (run_keeps_report (with_selected s idx))
    as (H1 & H2 & H3 & H4 & H5 & H6).
  unfold tap. by rewrite <- H1, <- H2, <- H3, <- H4, <- H5, <- H6.
Qed.

Lemma tap_aligned s idx :
  aligned (source_tsplot s) -> aligned (source_fftplot s) ->
  aligned (source_tsplot (tap s idx))
  /\ aligned (source_fftplot (tap s idx)).
Proof.
  intros Hts Hfft. unfold tap.
  pose proof (TapFacts.tap_keeps_aligned (with_selected s idx) Hts Hfft) as H.
  by destruct (tap_callback_jscode (with_selected s idx)).
Qed.

Lemma after_first_line_join piece pieces :
  Str.nl_count piece = 0 ->
  after_first_line (Str.join (piece :: pieces)) = Str.join pieces.
Proof.
  intros Hp. destruct pieces as [|p2 more].
  - simpl. induction piece as [|c rest IH]; simpl in *; [done|].
    destruct (Str.is_nl c); [lia|]. by apply IH.
  - change (Str.join (piece :: p2 :: more))
      with (piece +:+ Str.LF +:+ Str.join (p2 :: more)).
    induction piece as [|c rest IH]; simpl in *; [done|].
    destruct (Str.is_nl c); [lia|]. by apply IH.
Qed.

(** The first piece of a text holds no line terminator. *)
Lemma split_head_no_nl s piece pieces :
  Str.split s = piece :: pieces -> Str.nl_count piece = 0.
Proof.
  revert piece pieces. induction s as [|c rest IH]; intros piece pieces; simpl.
  - by intros [= <- <-].
  - destruct (Str.is_nl c) eqn:Hc; [by intros [= <- <-]|].
    destruct (Str.split rest) as [|p ps] eqn:Hs.
    + intros [= <- <-]. simpl. by rewrite Hc.
    + intros [= <- <-]. simpl. rewrite Hc. by apply (IH p ps).
Qed.

End TapMore.

(** X1.  A tap that selects one row other than the first, in a report
    whose stored series and spectrum of the row's component are as long
    as the axes, ends normally: the traces are that series and that
    spectrum, both lines have the colour of the row, and the panel holds
    the image line of the component. *)
Theorem tap_shows_selected_row (s : js_env) (k : nat) (c col : string)
    (a b : array) :
  selected_indices (source_comp_table s) = [k] -> 0 < k ->
  data_component (source_comp_table s) !! k = Some c ->
  data_color (source_comp_table s) !! k = Some col ->
  source_meica_ts s !! ("ica_" +:+ Str.pad2 c) = Some a ->
  source_meica_fft s !! ("ica_" +:+ Str.pad2 c) = Some b ->
  aligned (source_tsplot s) -> aligned (source_fftplot s) ->
  length a = length (plot_x (source_tsplot s)) ->
  length b = length (plot_x (source_fftplot s)) ->
  Str.nl_count (outdir s) = 0 -> Str.nl_count c = 0 ->
  JS.tap_callback_jscode s = Completed
    {| source_comp_table := source_comp_table s;
       source_meica_ts := source_meica_ts s;
       source_tsplot := {| plot_x := plot_x (source_tsplot s); plot_y := a |};
       source_meica_fft := source_meica_fft s;
       source_fftplot :=
         {| plot_x := plot_x (source_fftplot s); plot_y := b |};
       div_text := JS.image_line (outdir s) ("0" +:+ Str.pad2 c);
       ts_line_color := Some col;
       fft_line_color := Some col;
       outdir := outdir s |}.
Proof.
  intros Hi Hk Hc Hcol Ha Hb Hts Hfft Hla Hlb Hout Hcnl.
  unfold JS.tap_callback_jscode, JS.gt_zero. rewrite Hi. simpl.
  destruct (Nat.ltb_spec 0 k); [|lia].
  erewrite TapFacts.selected_branch_run; [| by rewrite Hi | done | done].
  rewrite TapFacts.panel_of_line.
  - unfold aligned, JS.at_indices in *. rewrite Hi, Hcol.
    rewrite <- Hts, <- Hfft.
    by rewrite !LoopFacts.copy_loop_all by congruence.
  - unfold JS.image_line.
    rewrite !StrFacts.nl_count_app, StrFacts.nl_count_pad2, Hout, Hcnl.
    simpl. lia.
Qed.

Lemma tap_shows_selected_row_witness :
  JS.tap_callback_jscode (five_report [3] "earlier entry") = Completed
    {| source_comp_table := source_comp_table (five_report [3] "");
       source_meica_ts := five_series;
       source_tsplot :=
         {| plot_x := arange 3; plot_y := series3 3 1 4 |};
       source_meica_fft := five_spectra;
       source_fftplot :=
         {| plot_x := [Num 0; Num (1 # 4)]; plot_y := [Num 6; Num 4] |};
       div_text := JS.image_line "/opt/out" "003";
       ts_line_color := Some "#e74c3c";
       fft_line_color := Some "#e74c3c";
       outdir := "/opt/out" |}.
Proof.
  apply (tap_shows_selected_row (five_report [3] "earlier entry") 3 "3"
           "#e74c3c" (series3 3 1 4) [Num 6; Num 4]);
    (reflexivity || (vm_compute; lia)).
Defined.

(** X2.  A tap that selects no row, only the first row, or two rows and
    more resets a report whose traces are as long as their axes: both
    traces are zero, both lines black and the panel holds the bare line
    terminator. *)
Theorem tap_resets_unless_one_later_row (s : js_env) :
  selected_indices (source_comp_table s) = []
  \/ selected_indices (source_comp_table s) = [0]
  \/ 2 <= length (selected_indices (source_comp_table s)) ->
  aligned (source_tsplot s) -> aligned (source_fftplot s) ->
  JS.tap_callback_jscode s = Completed
    {| source_comp_table := source_comp_table s;
       source_meica_ts := source_meica_ts s;
       source_tsplot :=
         {| plot_x := plot_x (source_tsplot s);
            plot_y := zeros (length (plot_x (source_tsplot s))) |};
       source_meica_fft := source_meica_fft s;
       source_fftplot :=
         {| plot_x := plot_x (source_fftplot s);
            plot_y := zeros (length (plot_x (source_fftplot s))) |};
       div_text := Str.LF;
       ts_line_color := Some "#000000";
       fft_line_color := Some "#000000";
       outdir := outdir s |}.
Proof.
  intros Hsel Hts Hfft.
  assert (Hgt : JS.gt_zero (selected_indices (source_comp_table s)) = false).
  { destruct Hsel as [->|[->|Hlen]]; [done|done|].
    destruct (selected_indices _) as [|k [|k' rest]]; simpl in Hlen;
      [lia|lia|done]. }
  unfold JS.tap_callback_jscode. rewrite Hgt.
  unfold JS.unselected_branch, JS.zero_out. simpl.
  unfold aligned in *. rewrite <- Hts, <- Hfft.
  by rewrite !LoopFacts.zero_loop_all.
Qed.

Lemma tap_resets_unless_one_later_row_witness :
  plot_y (source_tsplot
            (after (JS.tap_callback_jscode (five_report [2; 3] "old"))))
  = [Num 0; Num 0; Num 0]
  /\ ts_line_color (after (JS.tap_callback_jscode (five_report [2; 3] "old")))
     = Some "#000000".
Proof.
  rewrite (tap_resets_unless_one_later_row (five_report [2; 3] "old"));
    [by split| |reflexivity|reflexivity].
  right. right. simpl. lia.
Defined.

(** X3.  When the stored series of the selected row's component is
    missing and the time axis is not empty, the run throws a TypeError
    after it has given both lines the colour of the row: the traces and
    the panel are as before. *)
Theorem missing_series_throws (s : js_env) (k : nat) (c : string) :
  selected_indices (source_comp_table s) = [k] -> 0 < k ->
  data_component (source_comp_table s) !! k = Some c ->
  source_meica_ts s !! ("ica_" +:+ Str.pad2 c) = None ->
  plot_x (source_tsplot s) <> [] ->
  JS.tap_callback_jscode s = Thrown "TypeError"
    (JS.with_lines s (data_color (source_comp_table s) !! k)
                     (data_color (source_comp_table s) !! k)).
Proof.
  intros Hi Hk Hc Hts Hx.
  unfold JS.tap_callback_jscode, JS.gt_zero. rewrite Hi. simpl.
  destruct (Nat.ltb_spec 0 k); [|lia].
  unfold JS.selected_branch. rewrite Hi. simpl. rewrite Hc. simpl.
  rewrite Hts. simpl.
  destruct (plot_x (source_tsplot s)); [done|]. reflexivity.
Qed.

Lemma missing_series_throws_witness :
  JS.tap_callback_jscode
    (five_report_with (delete "ica_03" five_series) five_spectra [3])
  = Thrown "TypeError"
      (JS.with_lines
         (five_report_with (delete "ica_03" five_series) five_spectra [3])
         (Some "#e74c3c") (Some "#e74c3c")).
Proof.
  apply (missing_series_throws
           (five_report_with (delete "ica_03" five_series) five_spectra [3])
           3 "3"); (reflexivity || (simpl; lia) || discriminate).
Defined.

(** X4.  When the series of the selected row's component is stored and
    as long as the time axis, but its spectrum is missing and the
    frequency axis is not empty, the run throws a TypeError after the
    lines are coloured and the time series trace has become the series:
    the spectrum trace and the panel are as before. *)
Theorem missing_spectrum_throws (s : js_env) (k : nat) (c : string)
    (a : array) :
  selected_indices (source_comp_table s) = [k] -> 0 < k ->
  data_component (source_comp_table s) !! k = Some c ->
  source_meica_ts s !! ("ica_" +:+ Str.pad2 c) = Some a ->
  source_meica_fft s !! ("ica_" +:+ Str.pad2 c) = None ->
  aligned (source_tsplot s) ->
  length a = length (plot_x (source_tsplot s)) ->
  plot_x (source_fftplot s) <> [] ->
  JS.tap_callback_jscode s = Thrown "TypeError"
    {| source_comp_table := source_comp_table s;
       source_meica_ts := source_meica_ts s;
       source_tsplot := {| plot_x := plot_x (source_tsplot s); plot_y := a |};
       source_meica_fft := source_meica_fft s;
       source_fftplot := source_fftplot s;
       div_text := div_text s;
       ts_line_color := data_color (source_comp_table s) !! k;
       fft_line_color := data_color (source_comp_table s) !! k;
       outdir := outdir s |}.
Proof.
  intros Hi Hk Hc Hts Hfft Hal Hla Hx.
  unfold JS.tap_callback_jscode, JS.gt_zero. rewrite Hi. simpl.
  destruct (Nat.ltb_spec 0 k); [|lia].
  unfold JS.selected_branch. rewrite Hi. simpl. rewrite Hc. simpl.
  rewrite Hts. simpl. rewrite Hfft. simpl.
  destruct (plot_x (source_fftplot s)); [done|]. simpl.
  unfold aligned in Hal. rewrite <- Hal.
  by rewrite LoopFacts.copy_loop_all by congruence.
Qed.

Lemma missing_spectrum_throws_witness :
  after (JS.tap_callback_jscode
           (five_report_with five_series (delete "ica_03" five_spectra) [3]))
  = {| source_comp_table := source_comp_table (five_report [3] "");
       source_meica_ts := five_series;
       source_tsplot := {| plot_x := arange 3; plot_y := series3 3 1 4 |};
       source_meica_fft := delete "ica_03" five_spectra;
       source_fftplot := five_fft_plot.2;
       div_text := "";
       ts_line_color := Some "#e74c3c";
       fft_line_color := Some "#e74c3c";
       outdir := "/opt/out" |}.
Proof.
  rewrite (missing_spectrum_throws
             (five_report_with five_series (delete "ica_03" five_spectra) [3])
             3 "3" (series3 3 1 4));
    (reflexivity || (simpl; lia) || discriminate).
Defined.

Module TapHistory.
Import JS.

Lemma overwrite_aligned column p1 p2 :
  plot_x p1 = plot_x p2 -> aligned p1 -> aligned p2 ->
  overwrite column p1 = overwrite column p2.
Proof.
  destruct p1 as [x1 y1], p2 as [x2 y2]. unfold aligned. simpl.
  intros <- H1 H2. unfold overwrite. simpl.
  destruct column as [src|].
  - rewrite <- H1 at 1. rewrite <- H2 at 1.
    rewrite !TapMore.copy_loop_aligned. by rewrite H1, H2.
  - destruct x1; simpl; [|done].
    destruct y1, y2; try discriminate. done.
Qed.

Lemma zero_out_aligned p1 p2 :
  plot_x p1 = plot_x p2 -> aligned p1 -> aligned p2 ->
  zero_out p1 = zero_out p2.
Proof.
  destruct p1 as [x1 y1], p2 as [x2 y2]. unfold aligned, zero_out. simpl.
  intros <- H1 H2. f_equal.
  rewrite <- H1 at 1. rewrite <- H2 at 1.
  rewrite !LoopFacts.zero_loop_all. by rewrite H1, H2.
Qed.

End TapHistory.

(** X5.  Whatever rows a sequence of taps selects, and whether or not
    some of the runs throw, the table, the stored series and spectra,
    both axes and the output directory stay as they were, and traces
    that were as long as their axes remain so. *)
Theorem taps_keep_report (s : js_env) (events : list (list nat)) :
  aligned (source_tsplot s) -> aligned (source_fftplot s) ->
  aligned (source_tsplot (taps s events))
  /\ aligned (source_fftplot (taps s events))
  /\ data_component (source_comp_table (taps s events))
     = data_component (source_comp_table s)
  /\ data_color (source_comp_table (taps s events))
     = data_color (source_comp_table s)
  /\ source_meica_ts (taps s events) = source_meica_ts s
  /\ source_meica_fft (taps s events) = source_meica_fft s
  /\ plot_x (source_tsplot (taps s events)) = plot_x (source_tsplot s)
  /\ plot_x (source_fftplot (taps s events)) = plot_x (source_fftplot s)
  /\ outdir (taps s events) = outdir s.
Proof.
  revert s. induction events as [|idx rest IH]; intros s Hts Hfft.
  - by repeat split.
  - destruct (TapMore.tap_aligned s idx Hts Hfft) as [Hts' Hfft'].
    destruct (TapMore.tap_keeps_report s idx)
      as (H1 & H2 & H3 & H4 & H5 & H6).
    destruct (IH (tap s idx) Hts' Hfft')
      as (I1 & I2 & I3 & I4 & I5 & I6 & I7 & I8 & I9).
    change (taps s (idx :: rest)) with (taps (tap s idx) rest).
    rewrite I3, I4, I5, I6, I7, I8, I9, H1, H2, H3, H4, H5, H6.
    by repeat split.
Qed.

Lemma taps_keep_report_witness :
  aligned (source_tsplot (taps (five_report [] "") [[3]; [0]; [1; 2]; [4]]))
  /\ aligned
       (source_fftplot (taps (five_report [] "") [[3]; [0]; [1; 2]; [4]]))
  /\ source_meica_ts (taps (five_report [] "") [[3]; [0]; [1; 2]; [4]])
     = five_series
  /\ plot_y (source_tsplot
               (taps (five_report [] "") [[3]; [0]; [1; 2]; [4]]))
     = series3 7 8 9.
Proof.
  destruct (taps_keep_report (five_report [] "") [[3]; [0]; [1; 2]; [4]])
    as (H1 & H2 & _ & _ & H5 & _); [reflexivity|reflexivity|].
  split; [exact H1|]. split; [exact H2|]. split; [exact H5|].
  reflexivity.
Defined.

(** X6.  What a completed run displays does not depend on what was
    displayed before: two reports with traces as long as their axes
    that differ only in traces, line colours and panel are left in one
    and the same state by a run that completes. *)
Theorem display_forgets_history (s1 s2 r : js_env) :
  same_report s1 s2 ->
  aligned (source_tsplot s1) -> aligned (source_fftplot s1) ->
  aligned (source_tsplot s2) -> aligned (source_fftplot s2) ->
  JS.tap_callback_jscode s1 = Completed r ->
  JS.tap_callback_jscode s2 = Completed r.
Proof.
  intros (Htab & Hts & Hfft & Hx1 & Hx2 & Hout) A1 B1 A2 B2.
  unfold JS.tap_callback_jscode. rewrite <- Htab.
  destruct (JS.gt_zero _).
  - unfold JS.selected_branch. simpl.
    rewrite <- Htab, <- Hts, <- Hfft, <- Hout.
    rewrite (TapHistory.overwrite_aligned _ (source_tsplot s2)
               (source_tsplot s1)) by done.
    destruct (JS.overwrite _ (source_tsplot s1)) as [ts|]; [|discriminate].
    rewrite (TapHistory.overwrite_aligned _ (source_fftplot s2)
               (source_fftplot s1)) by done.
    destruct (JS.overwrite _ (source_fftplot s1)) as [fft|]; [|discriminate].
    intros [= <-]. unfold JS.with_div_text. simpl.
    by rewrite <- Htab, <- Hts, <- Hfft, <- Hout.
  - unfold JS.unselected_branch. simpl.
    rewrite (TapHistory.zero_out_aligned (source_tsplot s2)
               (source_tsplot s1)) by done.
    rewrite (TapHistory.zero_out_aligned (source_fftplot s2)
               (source_fftplot s1)) by done.
    intros [= <-]. unfold JS.with_div_text. simpl.
    by rewrite <- Htab, <- Hts, <- Hfft, <- Hout.
Qed.

Lemma display_forgets_history_witness :
  JS.tap_callback_jscode (with_selected (tap (five_report [] "") [3]) [4])
  = JS.tap_callback_jscode (with_selected (five_report [] "") [4]).
Proof.
  rewrite (display_forgets_history
             (with_selected (five_report [] "") [4])
             (with_selected (tap (five_report [] "") [3]) [4])
             (after (JS.tap_callback_jscode
                       (with_selected (five_report [] "") [4])))).
  - reflexivity.
  - repeat split.
  - reflexivity.
  - reflexivity.
  - reflexivity.
  - reflexivity.
  - reflexivity.
Defined.

Module PanelFacts.

Lemma nl_count_after_first_line text :
  Str.nl_count (after_first_line text) = Str.nl_count text - 1.
Proof.
  induction text as [|c rest IH]; simpl; [done|].
  destruct (Str.is_nl c); simpl; lia.
Qed.

Lemma join_tail_split text :
  Str.join (tail (Str.split text)) = after_first_line text.
Proof.
  destruct (StrFacts.split_cons text) as (piece & pieces & Hs).
  rewrite Hs. simpl.
  replace (after_first_line text)
    with (after_first_line (Str.join (piece :: pieces)))
    by (by rewrite <- Hs, StrFacts.join_split).
  symmetry. apply TapMore.after_first_line_join.
  by apply (TapMore.split_head_no_nl text piece pieces).
Qed.

End PanelFacts.

(** X7.  Splitting the panel text at the line terminators and joining
    the pieces again gives the text back as long as it has fewer than 35
    terminators; a text with 35 terminators and more loses its first
    line, terminator included, and nothing else. *)
Theorem panel_step_keeps_or_cuts_first_line (text : string) :
  (Str.nl_count text < 35 -> panel_step text = text)
  /\ (35 <= Str.nl_count text ->
      panel_step text = after_first_line text
      /\ Str.nl_count (panel_step text) = Str.nl_count text - 1).
Proof.
  split.
  - apply TapFacts.panel_of_line.
  - intros H. unfold panel_step, JS.shift_over_35.
    rewrite StrFacts.length_split.
    destruct (Nat.ltb_spec 35 (S (Str.nl_count text))); [|lia].
    rewrite PanelFacts.join_tail_split.
    split; [done|apply PanelFacts.nl_count_after_first_line].
Qed.

Lemma panel_step_keeps_or_cuts_first_line_witness :
  panel_step (lines_text 34) = lines_text 34
  /\ panel_step (lines_text 36) = lines_text 35.
Proof.
  split.
  - apply (proj1 (panel_step_keeps_or_cuts_first_line (lines_text 34))).
    vm_compute. lia.
  - destruct (proj2 (panel_step_keeps_or_cuts_first_line (lines_text 36)))
      as [H _]; [vm_compute; lia|].
    rewrite H. reflexivity.
Defined.

(* ===================================================================== *)
(** * Further properties of the component table                           *)
(* ===================================================================== *)

Module TableMore.

(** The frame of a successful run, before it is cut into columns: the
    rows built from the columns, sorted. *)
Lemma create_data_struct_frame df cm cds :
  create_data_struct df cm = Return cds ->
  exists f0 color,
    MinMaxScaler.fit (4, 20)%Q (Comptable.var_exp <$> df) = Return f0
    /\ colors_of cm (Comptable.classification <$> df) = Return color
    /\ let frame :=
         Frame.sort_values
           (frame_row df
              (MinMaxScaler.transform f0 (Comptable.var_exp <$> df))
              (Series.rank_descending (Comptable.rho <$> df))
              (Series.rank_descending (Comptable.kappa <$> df))
              (Series.rank_descending (Comptable.var_exp <$> df))
              color (angles (Comptable.var_exp <$> df))
            <$> seq 0 (length df)) in
       cds = {| CDS.kappa := Frame.kappa <$> frame;
                CDS.rho := Frame.rho <$> frame;
                CDS.varexp := Frame.var_exp <$> frame;
                CDS.kappa_rank := Frame.kappa_rank <$> frame;
                CDS.rho_rank := Frame.rho_rank <$> frame;
                CDS.varexp_rank := Frame.var_exp_rank <$> frame;
                CDS.component :=
                  (fun r => pretty (Frame.component r)) <$> frame;
                CDS.color := Frame.color <$> frame;
                CDS.size := Frame.var_exp_size <$> frame;
                CDS.classif := Frame.classification <$> frame;
                CDS.angle := Frame.angle <$> frame |}.
Proof.
  unfold create_data_struct, MinMaxScaler.fit_transform.
  rewrite <- !list_fmap_compose.
  change (fst ∘ _) with Comptable.var_exp.
  change (snd ∘ _) with Comptable.normalized_variance_explained.
  destruct (MinMaxScaler.fit _ (Comptable.var_exp <$> df))
    as [f0|] eqn:Hf0; simpl; [|discriminate].
  destruct (MinMaxScaler.fit _
              (Comptable.normalized_variance_explained <$> df))
    as [f1|]; simpl; [|discriminate].
  destruct (colors_of cm _) as [color|] eqn:Hcol; simpl; [|discriminate].
  destruct (angle_column _) as [angle|] eqn:Hangle; simpl; [|discriminate].
  apply FrameFacts.angle_column_inv in Hangle as [-> _].
  intros [= <-].
  rewrite fst_zip
    by (unfold MinMaxScaler.transform; rewrite !length_fmap; lia).
  by exists f0, color.
Qed.

Lemma frame_row_from df f0 color angle i :
  i < length df ->
  row_from df f0
    (frame_row df
       (MinMaxScaler.transform f0 (Comptable.var_exp <$> df))
       (Series.rank_descending (Comptable.rho <$> df))
       (Series.rank_descending (Comptable.kappa <$> df))
       (Series.rank_descending (Comptable.var_exp <$> df))
       color angle i).
Proof.
  intros Hi. destruct (lookup_lt_is_Some_2 df i Hi) as [x Hx].
  exists x. unfold frame_row. simpl.
  rewrite (nth_lookup_Some df i _ x Hx).
  unfold MinMaxScaler.transform, Series.rank_descending.
  assert (Hcol : forall (get : Comptable.row -> Q),
            (get <$> df) !! i = Some (get x))
    by (intros get; by rewrite list_lookup_fmap, Hx).
  rewrite !(TableFacts.nth_fmap_lookup _ _ i _ _ (Hcol _)).
  by repeat split.
Qed.

End TableMore.

Module TableRows.

(** Every row of the sorted frame is a row built from the columns. *)
Lemma sorted_rows df cm cds :
  create_data_struct df cm = Return cds ->
  exists f0 frame,
    MinMaxScaler.fit (4, 20)%Q (Comptable.var_exp <$> df) = Return f0
    /\ Forall (row_from df f0) frame
    /\ Frame.component <$> frame ≡ₚ seq 0 (length df)
    /\ CDS.kappa cds = Frame.kappa <$> frame
    /\ CDS.rho cds = Frame.rho <$> frame
    /\ CDS.varexp cds = Frame.var_exp <$> frame
    /\ CDS.kappa_rank cds = Frame.kappa_rank <$> frame
    /\ CDS.rho_rank cds = Frame.rho_rank <$> frame
    /\ CDS.varexp_rank cds = Frame.var_exp_rank <$> frame
    /\ CDS.component cds = (fun r => pretty (Frame.component r)) <$> frame
    /\ CDS.size cds = Frame.var_exp_size <$> frame
    /\ CDS.classif cds = Frame.classification <$> frame.
Proof.
  intros Hrun.
  destruct (TableMore.create_data_struct_frame _ _ _ Hrun)
    as (f0 & color & Hfit & _ & ->).
  eexists f0, _. split; [done|]. simpl.
  split; [|split; [|by repeat split]].
  - rewrite FrameFacts.sort_values_perm.
    apply Forall_fmap, Forall_forall. intros i Hi%elem_of_seq.
    apply TableMore.frame_row_from. lia.
  - rewrite FrameFacts.sort_values_perm, <- list_fmap_compose.
    by rewrite list_fmap_id.
Qed.

End TableRows.


(** X9.  In a returned table every component of the input appears in
    exactly one row, under its number written in decimal, and the row
    holds the kappa, rho, variance explained and classification of that
    component; every column has one entry per component. *)
Theorem returned_rows_are_table_rows (df : list Comptable.row)
    (cm : gmap string string) (cds : CDS.t) :
  create_data_struct df cm = Return cds ->
  CDS.component cds ≡ₚ pretty <$> seq 0 (length df)
  /\ (forall k c, CDS.component cds !! k = Some c ->
      exists i r, c = pretty i /\ df !! i = Some r
        /\ CDS.kappa cds !! k = Some (Comptable.kappa r)
        /\ CDS.rho cds !! k = Some (Comptable.rho r)
        /\ CDS.varexp cds !! k = Some (Comptable.var_exp r)
        /\ CDS.classif cds !! k = Some (Comptable.classification r))
  /\ length (CDS.kappa cds) = length df
  /\ length (CDS.rho cds) = length df
  /\ length (CDS.varexp cds) = length df
  /\ length (CDS.kappa_rank cds) = length df
  /\ length (CDS.rho_rank cds) = length df
  /\ length (CDS.varexp_rank cds) = length df
  /\ length (CDS.color cds) = length df
  /\ length (CDS.size cds) = length df
  /\ length (CDS.classif cds) = length df
  /\ length (CDS.angle cds) = length df.
Proof.
  intros Hrun.
  assert (Hlen : forall frame : list Frame.row,
            Frame.component <$> frame ≡ₚ seq 0 (length df) ->
            length frame = length df).
  { intros frame Hp. apply Permutation_length in Hp.
    by rewrite length_fmap, length_seq in Hp. }
  destruct (FrameFacts.create_data_struct_inv _ _ _ Hrun)
    as (f0' & color' & frame' & _ & _ & Hperm' & Hcds').
  destruct (TableRows.sorted_rows _ _ _ Hrun)
    as (f0 & frame & _ & Hrows & Hperm & Hk & Hr & Hv & _ & _ & _
        & Hc & _ & Hcl).
  split; [|split].
  - rewrite Hc, <- Hperm, <- list_fmap_compose. reflexivity.
  - intros k c Hkc. rewrite Hc, list_lookup_fmap in Hkc.
    destruct (frame !! k) as [r|] eqn:Hrow; [|discriminate].
    injection Hkc as <-.
    destruct (proj1 (Forall_lookup _ _) Hrows k r Hrow)
      as (x & Hx & Hxk & Hxr & Hxv & Hxc & _).
    exists (Frame.component r), x. split; [done|]. split; [done|].
    rewrite Hk, Hr, Hv, Hcl, !list_lookup_fmap, Hrow. simpl.
    by rewrite Hxk, Hxr, Hxv, Hxc.
  - assert (Hf : length frame' = length df).
    { apply Permutation_length in Hperm'.
      by rewrite length_fmap, length_seq in Hperm'. }
    rewrite Hcds'. simpl. rewrite !length_fmap. by repeat split.
Qed.

Lemma returned_rows_are_table_rows_witness :
  CDS.component five_cds ≡ₚ pretty <$> seq 0 5
  /\ exists i r, "4" = pretty i /\ five_components !! i = Some r
       /\ CDS.kappa five_cds !! 2 = Some (Comptable.kappa r)
       /\ CDS.rho five_cds !! 2 = Some (Comptable.rho r)
       /\ CDS.varexp five_cds !! 2 = Some (Comptable.var_exp r)
       /\ CDS.classif five_cds !! 2 = Some (Comptable.classification r).
Proof.
  destruct (returned_rows_are_table_rows five_components color_mapping
              five_cds eq_refl) as (Hp & Hrows & _).
  split; [exact Hp|]. apply (Hrows 2 "4"). reflexivity.
Defined.

Module SortFacts.

Lemma string_lt_trans a b c :
  String.compare a b = Lt -> String.compare b c = Lt ->
  String.compare a c = Lt.
Proof.
  intros H1 H2.
  apply OrderedTypeEx.String_as_OT.cmp_lt.
  apply OrderedTypeEx.String_as_OT.lt_trans with b;
    by apply OrderedTypeEx.String_as_OT.cmp_lt.
Qed.

Lemma string_compare_refl a : String.compare a a = Eq.
Proof.
  pose proof (String.compare_antisym a a) as H.
  destruct (String.compare a a); simpl in H; congruence.
Qed.

Lemma key_le_total a b :
  Frame.key_le a b = false -> Frame.key_le b a = true.
Proof.
  unfold Frame.key_le.
  pose proof (String.compare_antisym (Frame.classification a)
                                     (Frame.classification b)) as Hanti.
  destruct (String.compare (Frame.classification a) (Frame.classification b)),
    (String.compare (Frame.classification b) (Frame.classification a));
    simpl in Hanti; try discriminate; try done.
  intros H. apply Qle_bool_iff.
  destruct (Qlt_le_dec (Frame.var_exp a) (Frame.var_exp b)) as [Hlt|Hle];
    [|done].
  apply Qlt_le_weak, Qle_bool_iff in Hlt. congruence.
Qed.

Lemma key_le_trans a b c :
  Frame.key_le a b = true -> Frame.key_le b c = true ->
  Frame.key_le a c = true.
Proof.
  unfold Frame.key_le.
  destruct (String.compare (Frame.classification a) (Frame.classification b))
    eqn:Hab; [| |done];
  destruct (String.compare (Frame.classification b) (Frame.classification c))
    eqn:Hbc; try done.
  - apply String.compare_eq_iff in Hab, Hbc. rewrite Hab, Hbc.
    rewrite string_compare_refl.
    rewrite !Qle_bool_iff. apply Qle_trans.
  - apply String.compare_eq_iff in Hab. by rewrite Hab, Hbc.
  - apply String.compare_eq_iff in Hbc. by rewrite <- Hbc, Hab.
  - by rewrite (string_lt_trans _ _ _ Hab Hbc).
Qed.

Lemma insert_sorted a rows :
  StronglySorted (fun x y => Frame.key_le x y = true) rows ->
  StronglySorted (fun x y => Frame.key_le x y = true) (Frame.insert a rows).
Proof.
  induction 1 as [|b rest Hs IH Hb]; simpl.
  - repeat constructor.
  - destruct (Frame.key_le a b) eqn:Hab.
    + constructor; [by constructor|].
      constructor; [done|].
      eapply Forall_impl; [exact Hb|].
      intros c Hc. by apply key_le_trans with b.
    + constructor; [done|].
      rewrite FrameFacts.insert_perm.
      constructor; [by apply key_le_total|done].
Qed.

(** The rows come out of [sort_values] in the order of their keys. *)
Lemma sort_values_sorted rows :
  StronglySorted (fun x y => Frame.key_le x y = true)
                 (Frame.sort_values rows).
Proof.
  induction rows as [|a rest IH]; simpl; [constructor|].
  by apply insert_sorted.
Qed.

Lemma sorted_lookup {A} (R : A -> A -> Prop) (l : list A) i j x y :
  StronglySorted R l -> i < j -> l !! i = Some x -> l !! j = Some y ->
  R x y.
Proof.
  intros Hs. revert i j. induction Hs as [|a l Hs IH Ha]; intros i j Hij Hi Hj.
  - by rewrite lookup_nil in Hi.
  - destruct j as [|j]; [lia|]. destruct i as [|i]; simpl in *.
    + injection Hi as <-.
      by apply (proj1 (Forall_lookup _ _) Ha j y).
    + apply (IH i j); [lia|done|done].
Qed.

(** The rows of a returned table in their order. *)
Lemma returned_frame_sorted df cm cds :
  create_data_struct df cm = Return cds ->
  exists frame,
    StronglySorted (fun x y => Frame.key_le x y = true) frame
    /\ CDS.classif cds = Frame.classification <$> frame
    /\ CDS.varexp cds = Frame.var_exp <$> frame.
Proof.
  intros Hrun.
  destruct (TableMore.create_data_struct_frame _ _ _ Hrun)
    as (f0 & color & _ & _ & ->).
  eexists. split; [apply sort_values_sorted|]. by split.
Qed.

End SortFacts.

(** X10.  The rows of a returned table are in the order of their
    classification, compared character by character, and rows of one
    classification in the order of their variance explained. *)
Theorem returned_rows_are_sorted (df : list Comptable.row)
    (cm : gmap string string) (cds : CDS.t) (i j : nat)
    (ci cj : string) (vi vj : Q) :
  create_data_struct df cm = Return cds ->
  i < j ->
  CDS.classif cds !! i = Some ci -> CDS.classif cds !! j = Some cj ->
  CDS.varexp cds !! i = Some vi -> CDS.varexp cds !! j = Some vj ->
  String.compare ci cj = Lt \/ (ci = cj /\ (vi <= vj)%Q).
Proof.
  intros Hrun Hij Hci Hcj Hvi Hvj.
  destruct (SortFacts.returned_frame_sorted _ _ _ Hrun)
    as (frame & Hsorted & Hc & Hv).
  rewrite Hc, list_lookup_fmap in Hci, Hcj.
  rewrite Hv, list_lookup_fmap in Hvi, Hvj.
  destruct (frame !! i) as [ri|] eqn:Hri; [|discriminate].
  destruct (frame !! j) as [rj|] eqn:Hrj; [|discriminate].
  injection Hci as <-. injection Hcj as <-.
  injection Hvi as <-. injection Hvj as <-.
  pose proof (SortFacts.sorted_lookup _ _ i j ri rj Hsorted Hij Hri Hrj)
    as Hle.
  unfold Frame.key_le in Hle.
  destruct (String.compare (Frame.classification ri)
                           (Frame.classification rj)) eqn:Hcmp.
  - right. split; [by apply String.compare_eq_iff|by apply Qle_bool_iff].
  - by left.
  - discriminate.
Qed.

Lemma returned_rows_are_sorted_witness :
  String.compare "accepted" "ignored" = Lt
  \/ ("accepted" = "ignored" /\ (40 <= 8)%Q).
Proof.
  apply (returned_rows_are_sorted five_components color_mapping five_cds
           1 2 "accepted" "ignored" 40 8);
    (reflexivity || lia).
Defined.

(* ===================================================================== *)
(** * Further properties of the ranks                                     *)
(* ===================================================================== *)

Module RankMore.
Import Series.

Lemma of_nat_plus a b : of_nat (a + b) = (of_nat a + of_nat b)%Q.
Proof. unfold of_nat. by rewrite Nat2Z.inj_add, inject_Z_plus. Qed.

Lemma of_nat_le a b : a <= b -> (of_nat a <= of_nat b)%Q.
Proof. intros H. unfold of_nat. rewrite <- Zle_Qle. lia. Qed.

Lemma of_nat_mult a b : (of_nat (a * b) == of_nat a * of_nat b)%Q.
Proof. unfold of_nat. by rewrite Nat2Z.inj_mul, inject_Z_mult. Qed.

Lemma count_ext (p q : Q -> bool) column :
  (forall z, p z = q z) -> count p column = count q column.
Proof.
  intros H. induction column as [|y rest IH]; simpl; [done|].
  by rewrite H, IH.
Qed.

Lemma count_pos (p : Q -> bool) column z :
  z ∈ column -> p z = true -> 1 <= count p column.
Proof.
  intros Hz Hp. induction column as [|y rest IH]; simpl.
  - by apply elem_of_nil in Hz.
  - apply elem_of_cons in Hz as [<-|Hz]; [rewrite Hp; lia|].
    specialize (IH Hz). lia.
Qed.

Lemma count_add_le (p q r : Q -> bool) column :
  (forall z, p z = true -> r z = true) ->
  (forall z, q z = true -> r z = true) ->
  (forall z, p z = true -> q z = true -> False) ->
  count p column + count q column <= count r column.
Proof.
  intros Hp Hq Hpq. induction column as [|y rest IH]; simpl; [done|].
  specialize (Hp y). specialize (Hq y). specialize (Hpq y).
  destruct (p y), (q y), (r y); try lia;
    try (by specialize (Hp eq_refl)); try (by specialize (Hq eq_refl));
    by specialize (Hpq eq_refl eq_refl).
Qed.

Lemma Qeq_bool_true x y : Qeq_bool x y = true <-> (x == y)%Q.
Proof. apply Qeq_bool_iff. Qed.

(** Above a smaller value are all the values above a greater one and
    the values equal to the greater one. *)
Lemma greater_than_of_smaller column x y :
  (x < y)%Q ->
  greater_than column y + equal_to column y <= greater_than column x.
Proof.
  intros Hxy. unfold greater_than, equal_to. apply count_add_le.
  - intros z Hz%RankFacts.Qlt_bool_true. apply RankFacts.Qlt_bool_true.
    by apply Qlt_trans with y.
  - intros z Hz%Qeq_bool_true. apply RankFacts.Qlt_bool_true.
    by rewrite <- Hz.
  - intros z Hlt%RankFacts.Qlt_bool_true Heq%Qeq_bool_true.
    rewrite Heq in Hlt. by apply Qlt_irrefl in Hlt.
Qed.

Lemma equal_to_pos column x : x ∈ column -> 1 <= equal_to column x.
Proof.
  intros Hx. apply (count_pos _ _ x Hx), Qeq_bool_refl.
Qed.

Lemma greater_equal_bound column x :
  greater_than column x + equal_to column x <= length column.
Proof.
  rewrite <- RankFacts.count_true. unfold greater_than, equal_to.
  apply count_add_le; [done|done|].
  intros z Hlt%RankFacts.Qlt_bool_true Heq%Qeq_bool_true.
  rewrite Heq in Hlt. by apply Qlt_irrefl in Hlt.
Qed.

(** A greater value has a smaller rank. *)
Lemma rank_of_lt column x y :
  x ∈ column -> y ∈ column -> (x < y)%Q ->
  (rank_of column y < rank_of column x)%Q.
Proof.
  intros Hx Hy Hxy. unfold rank_of.
  pose proof (of_nat_le _ _ (greater_than_of_smaller column x y Hxy)) as H1.
  pose proof (of_nat_le _ _ (equal_to_pos column x Hx)) as H2.
  pose proof (of_nat_le _ _ (equal_to_pos column y Hy)) as H3.
  rewrite of_nat_plus in H1.
  change (of_nat 1) with 1%Q in H2, H3.
  set (gy := of_nat (greater_than column y)) in *.
  set (ey := of_nat (equal_to column y)) in *.
  set (gx := of_nat (greater_than column x)) in *.
  set (ex := of_nat (equal_to column x)) in *.
  clearbody gy ey gx ex.
  assert (Hy2 : (2 * ((ey + 1) / 2) == ey + 1)%Q) by field.
  assert (Hx2 : (2 * ((ex + 1) / 2) == ex + 1)%Q) by field.
  set (hy := ((ey + 1) / 2)%Q) in *. set (hx := ((ex + 1) / 2)%Q) in *.
  clearbody hy hx. lra.
Qed.

(** Equal values have one rank. *)
Lemma rank_of_eq column x y :
  (x == y)%Q -> rank_of column x = rank_of column y.
Proof.
  intros Hxy. unfold rank_of, greater_than, equal_to.
  rewrite (count_ext (fun z => Qlt_bool x z) (fun z => Qlt_bool y z)).
  - rewrite (count_ext (fun z => Qeq_bool x z) (fun z => Qeq_bool y z));
      [done|].
    intros z. by rewrite Hxy.
  - intros z. unfold Qlt_bool. by rewrite Hxy.
Qed.

(** Every rank lies between 1 and the length of the column. *)
Lemma rank_of_bounds column x :
  x ∈ column ->
  (1 <= rank_of column x)%Q /\ (rank_of column x <= of_nat (length column))%Q.
Proof.
  intros Hx. unfold rank_of.
  pose proof (of_nat_le _ _ (equal_to_pos column x Hx)) as H1.
  pose proof (of_nat_le _ _ (greater_equal_bound column x)) as H2.
  pose proof (of_nat_le 0 (greater_than column x) ltac:(lia)) as H3.
  rewrite of_nat_plus in H2.
  change (of_nat 1) with 1%Q in H1. change (of_nat 0) with 0%Q in H3.
  set (g := of_nat (greater_than column x)) in *.
  set (e := of_nat (equal_to column x)) in *.
  set (n := of_nat (length column)) in *.
  clearbody g e n.
  assert (He2 : (2 * ((e + 1) / 2) == e + 1)%Q) by field.
  set (h := ((e + 1) / 2)%Q) in *. clearbody h. split; lra.
Qed.

(** The rows of a returned table carry, for each metric, the value of
    their component and its rank in the column of the table. *)
Lemma metric_rows df cm cds m :
  create_data_struct df cm = Return cds ->
  forall k v r,
    metric_values m cds !! k = Some v -> metric_ranks m cds !! k = Some r ->
    v ∈ metric_of m <$> df /\ r = rank_of (metric_of m <$> df) v.
Proof.
  intros Hrun k v r Hv Hr.
  destruct (TableRows.sorted_rows _ _ _ Hrun)
    as (f0 & frame & _ & Hrows & _ & Hk & Hrh & Hve & Hkr & Hrr & Hvr & _).
  assert (Hrow : forall (val rank : Frame.row -> Q),
            metric_values m cds = val <$> frame ->
            metric_ranks m cds = rank <$> frame ->
            (forall row x, row_from df f0 row ->
               df !! Frame.component row = Some x ->
               val row = metric_of m x
               /\ rank row = rank_of (metric_of m <$> df) (metric_of m x)) ->
            v ∈ metric_of m <$> df /\ r = rank_of (metric_of m <$> df) v).
  { intros val rank Hvals Hranks Hfields.
    rewrite Hvals, list_lookup_fmap in Hv.
    rewrite Hranks, list_lookup_fmap in Hr.
    destruct (frame !! k) as [row|] eqn:Hrow; [|discriminate].
    injection Hv as <-. injection Hr as <-.
    pose proof (proj1 (Forall_lookup _ _) Hrows k row Hrow) as Hfrom.
    destruct Hfrom as (x & Hx & Hrest).
    destruct (Hfields row x (ex_intro _ x (conj Hx Hrest)) Hx) as [-> ->].
    split; [|done].
    apply list_elem_of_fmap. exists x. split; [done|].
    by apply list_elem_of_lookup_2 in Hx. }
  destruct m; simpl in *.
  - apply (Hrow Frame.kappa Frame.kappa_rank Hk Hkr).
    intros row x (x' & Hx' & H1 & H2 & H3 & H4 & H5 & H6 & H7 & H8) Hx.
    rewrite Hx in Hx'. injection Hx' as <-. by rewrite H1, H6.
  - apply (Hrow Frame.rho Frame.rho_rank Hrh Hrr).
    intros row x (x' & Hx' & H1 & H2 & H3 & H4 & H5 & H6 & H7 & H8) Hx.
    rewrite Hx in Hx'. injection Hx' as <-. by rewrite H2, H7.
  - apply (Hrow Frame.var_exp Frame.var_exp_rank Hve Hvr).
    intros row x (x' & Hx' & H1 & H2 & H3 & H4 & H5 & H6 & H7 & H8) Hx.
    rewrite Hx in Hx'. injection Hx' as <-. by rewrite H3, H8.
Qed.

End RankMore.

(** X11.  In every returned table and for each of kappa, rho and
    variance explained: of two rows the one with the greater value has
    the smaller rank, rows with equal values have the same rank, and
    every rank lies between 1 and the number of components. *)
Theorem greater_value_smaller_rank (df : list Comptable.row)
    (cm : gmap string string) (cds : CDS.t) (m : metric)
    (i j : nat) (vi vj ri rj : Q) :
  create_data_struct df cm = Return cds ->
  metric_values m cds !! i = Some vi -> metric_ranks m cds !! i = Some ri ->
  metric_values m cds !! j = Some vj -> metric_ranks m cds !! j = Some rj ->
  ((vi < vj)%Q -> (rj < ri)%Q)
  /\ ((vi == vj)%Q -> ri = rj)
  /\ (1 <= ri)%Q /\ (ri <= Series.of_nat (length df))%Q.
Proof.
  intros Hrun Hvi Hri Hvj Hrj.
  destruct (RankMore.metric_rows df cm cds m Hrun i vi ri Hvi Hri)
    as [Hini ->].
  destruct (RankMore.metric_rows df cm cds m Hrun j vj rj Hvj Hrj)
    as [Hinj ->].
  split; [by apply RankMore.rank_of_lt|].
  split; [apply RankMore.rank_of_eq|].
  pose proof (RankMore.rank_of_bounds _ _ Hini) as [H1 H2].
  rewrite length_fmap in H2. by split.
Qed.

Lemma greater_value_smaller_rank_witness :
  (Series.rank_of [7; 9; 7] 9 < Series.rank_of [7; 9; 7] 7)%Q
  /\ (1 <= Series.rank_of [7; 9; 7] 7)%Q
  /\ (Series.rank_of [7; 9; 7] 7 <= 3)%Q.
Proof.
  destruct (greater_value_smaller_rank two_of_a_kind color_mapping
              two_of_a_kind_cds Kappa 0 2 7 9
              (Series.rank_of [7; 9; 7]%Q 7) (Series.rank_of [7; 9; 7]%Q 9)
              eq_refl eq_refl eq_refl eq_refl eq_refl)
    as (H1 & _ & H3 & H4).
  split; [apply H1; reflexivity|]. split; [exact H3|exact H4].
Defined.

Module RankSum.
Import Series.

Lemma count_as_sum (p : Q -> bool) column :
  count p column = sum_list_with (fun y => if p y then 1 else 0) column.
Proof. induction column as [|y rest IH]; simpl; [done|]. by rewrite IH. Qed.

Lemma sum_list_with_plus {A} (f g : A -> nat) l :
  sum_list_with (fun x => f x + g x) l
  = sum_list_with f l + sum_list_with g l.
Proof. induction l as [|x l IH]; simpl; [done|]. rewrite IH. lia. Qed.

Lemma sum_list_with_const {A} (n : nat) (l : list A) :
  sum_list_with (fun _ => n) l = length l * n.
Proof. induction l as [|x l IH]; simpl; [done|]. rewrite IH. lia. Qed.

Lemma sum_list_with_ext {A} (f g : A -> nat) l :
  (forall x, f x = g x) -> sum_list_with f l = sum_list_with g l.
Proof.
  intros H. induction l as [|x l IH]; simpl; [done|]. by rewrite H, IH.
Qed.

(** Counting the pairs of a relation row by row or column by column
    gives one number. *)
Lemma count_swap (R : Q -> Q -> bool) l1 l2 :
  sum_list_with (fun x => count (R x) l2) l1
  = sum_list_with (fun y => count (fun x => R x y) l1) l2.
Proof.
  induction l1 as [|a l1 IH]; simpl.
  - by rewrite sum_list_with_const, Nat.mul_0_r.
  - rewrite IH, sum_list_with_plus. f_equal. apply count_as_sum.
Qed.

Lemma Qlt_bool_false x y : (y <= x)%Q -> Qlt_bool x y = false.
Proof.
  intros H. destruct (Qlt_bool x y) eqn:E; [|done].
  apply RankFacts.Qlt_bool_true in E. exfalso. by apply (Qlt_not_le x y).
Qed.

(** Every value of a column is above, below, or equal to a given one,
    and only one of the three. *)
Lemma three_ways column x :
  greater_than column x + count (fun y => Qlt_bool y x) column
  + equal_to column x = length column.
Proof.
  unfold greater_than, equal_to.
  induction column as [|y rest IH]; simpl; [done|].
  destruct (Q_dec x y) as [[Hlt|Hgt]|Heq].
  - rewrite (proj2 (RankFacts.Qlt_bool_true x y) Hlt).
    rewrite (Qlt_bool_false y x) by (by apply Qlt_le_weak).
    destruct (Qeq_bool x y) eqn:E.
    + apply Qeq_bool_eq in E. rewrite E in Hlt. by apply Qlt_irrefl in Hlt.
    + lia.
  - rewrite (proj2 (RankFacts.Qlt_bool_true y x) Hgt).
    rewrite (Qlt_bool_false x y) by (by apply Qlt_le_weak).
    destruct (Qeq_bool x y) eqn:E.
    + apply Qeq_bool_eq in E. rewrite E in Hgt. by apply Qlt_irrefl in Hgt.
    + lia.
  - rewrite (Qeq_eq_bool x y Heq).
    rewrite (Qlt_bool_false x y) by (rewrite Heq; apply Qle_refl).
    rewrite (Qlt_bool_false y x) by (rewrite Heq; apply Qle_refl).
    lia.
Qed.

(** Twice the pairs in order plus the pairs of equal values are all the
    pairs. *)
Lemma pairs_of_a_column column :
  2 * sum_list_with (greater_than column) column
  + sum_list_with (equal_to column) column
  = length column * length column.
Proof.
  assert (Hswap : sum_list_with (greater_than column) column
                  = sum_list_with
                      (fun x => count (fun y => Qlt_bool y x) column) column).
  { unfold greater_than. apply (count_swap Qlt_bool). }
  rewrite <- (sum_list_with_const (length column) column).
  rewrite (sum_list_with_ext (fun _ => length column)
             (fun x => greater_than column x
                       + count (fun y => Qlt_bool y x) column
                       + equal_to column x))
    by (intros x; symmetry; apply three_ways).
  rewrite !sum_list_with_plus, <- Hswap. lia.
Qed.

Lemma sum_of_ranks column sub :
  (sum (rank_of column <$> sub)
   == of_nat (sum_list_with (greater_than column) sub)
      + (of_nat (sum_list_with (equal_to column) sub)
         + of_nat (length sub)) / 2)%Q.
Proof.
  induction sub as [|x rest IH].
  - simpl. unfold of_nat. simpl. field.
  - rewrite fmap_cons. simpl. rewrite IH. unfold rank_of.
    rewrite !RankMore.of_nat_plus.
    change (of_nat (S (length rest))) with (of_nat (1 + length rest)).
    rewrite RankMore.of_nat_plus. change (of_nat 1) with 1%Q. field.
Qed.

(** The ranks of a column add up to N(N+1)/2, tied values or not. *)
Lemma sum_rank_descending column :
  (sum (rank_descending column)
   == of_nat (length column) * (of_nat (length column) + 1) / 2)%Q.
Proof.
  unfold rank_descending. rewrite sum_of_ranks.
  pose proof (pairs_of_a_column column) as Hp.
  apply (f_equal of_nat) in Hp.
  rewrite RankMore.of_nat_plus in Hp.
  assert (Hq : (2 * of_nat (sum_list_with (greater_than column) column)
                + of_nat (sum_list_with (equal_to column) column)
                == of_nat (length column) * of_nat (length column))%Q).
  { rewrite <- RankMore.of_nat_mult, <- Hp, RankMore.of_nat_mult.
    change (of_nat 2) with 2%Q. reflexivity. }
  set (g := of_nat (sum_list_with (greater_than column) column)) in *.
  set (e := of_nat (sum_list_with (equal_to column) column)) in *.
  set (n := of_nat (length column)) in *.
  clearbody g e n.
  transitivity ((2 * g + e + n) / 2)%Q; [field|].
  rewrite Hq. field.
Qed.

Lemma sum_perm (l l' : list Q) : l ≡ₚ l' -> (sum l == sum l')%Q.
Proof.
  induction 1 as [|x l l' _ IH|x y l|l l' l'' _ IH1 _ IH2]; simpl.
  - reflexivity.
  - by rewrite IH.
  - ring.
  - by rewrite IH1.
Qed.

(** A rank column of a returned table is the rank column of the frame,
    reordered. *)
Lemma metric_ranks_perm df cm cds m :
  create_data_struct df cm = Return cds ->
  metric_ranks m cds ≡ₚ rank_descending (metric_of m <$> df).
Proof.
  intros Hrun.
  destruct (FrameFacts.create_data_struct_inv _ _ _ Hrun)
    as (f0 & color & frame & _ & _ & Hperm & ->).
  destruct m; simpl;
    (eapply (TableFacts.frame_column _ _ _ _ 0%Q); [exact Hperm| |done];
     unfold rank_descending; by rewrite !length_fmap).
Qed.

End RankSum.

(** X12.  In every returned table the ranks of each of kappa, rho and
    variance explained add up to N(N+1)/2 for N components, whether or
    not values are tied. *)
Theorem ranks_add_up (df : list Comptable.row) (cm : gmap string string)
    (cds : CDS.t) (m : metric) :
  create_data_struct df cm = Return cds ->
  (Series.sum (metric_ranks m cds)
   == Series.of_nat (length df) * (Series.of_nat (length df) + 1) / 2)%Q.
Proof.
  intros Hrun.
  rewrite (RankSum.sum_perm _ _ (RankSum.metric_ranks_perm df cm cds m Hrun)).
  rewrite RankSum.sum_rank_descending. by rewrite length_fmap.
Qed.

Lemma ranks_add_up_witness :
  Qred <$> CDS.kappa_rank two_of_a_kind_cds = [5 # 2; 5 # 2; 1]%Q
  /\ (Series.sum (CDS.kappa_rank two_of_a_kind_cds) == 3 * (3 + 1) / 2)%Q.
Proof.
  split; [reflexivity|].
  exact (ranks_add_up two_of_a_kind color_mapping two_of_a_kind_cds Kappa
           eq_refl).
Defined.

(* ===================================================================== *)
(** * Further properties of the sizes                                     *)
(* ===================================================================== *)

Module ScalerMore.
Import MinMaxScaler.

Lemma fold_min_glb rest : forall x b,
  (b <= x)%Q -> (forall y, y ∈ rest -> (b <= y)%Q) ->
  (b <= fold_left Qmin rest x)%Q.
Proof.
  induction rest as [|z rest IH]; intros x b Hx Hrest; simpl; [done|].
  apply IH.
  - apply Q.min_glb; [done|]. apply Hrest, list_elem_of_here.
  - intros y Hy. by apply Hrest, list_elem_of_further.
Qed.

Lemma fold_max_lub rest : forall x b,
  (x <= b)%Q -> (forall y, y ∈ rest -> (y <= b)%Q) ->
  (fold_left Qmax rest x <= b)%Q.
Proof.
  induction rest as [|z rest IH]; intros x b Hx Hrest; simpl; [done|].
  apply IH.
  - apply Q.max_lub; [done|]. apply Hrest, list_elem_of_here.
  - intros y Hy. by apply Hrest, list_elem_of_further.
Qed.

(** What a fit to the range from 4 to 20 holds. *)
Lemma fit_facts column f :
  fit (4, 20)%Q column = Return f ->
  scale_ f = ((20 - 4) / handle_zeros_in_scale
                           (data_max_ f - data_min_ f))%Q
  /\ min_ f = (4 - data_min_ f * scale_ f)%Q
  /\ (forall b, (forall y, y ∈ column -> (b <= y)%Q) ->
      (b <= data_min_ f)%Q)
  /\ (forall b, (forall y, y ∈ column -> (y <= b)%Q) ->
      (data_max_ f <= b)%Q).
Proof.
  destruct column as [|x rest]; [discriminate|].
  intros [= <-]. simpl. split; [done|]. split; [done|]. split.
  - intros b Hb. apply fold_min_glb.
    + apply Hb, list_elem_of_here.
    + intros y Hy. by apply Hb, list_elem_of_further.
  - intros b Hb. apply fold_max_lub.
    + apply Hb, list_elem_of_here.
    + intros y Hy. by apply Hb, list_elem_of_further.
Qed.

Lemma handle_zeros_pos r :
  (0 <= r)%Q -> (0 < handle_zeros_in_scale r)%Q.
Proof.
  intros Hr. unfold handle_zeros_in_scale.
  destruct (Qeq_bool r 0) eqn:E; [reflexivity|].
  apply Qeq_bool_neq in E.
  destruct (Qlt_le_dec 0 r) as [|Hle]; [done|].
  exfalso. apply E. lra.
Qed.

(** The scale of a fit is not negative. *)
Lemma scale_nonneg column f y :
  fit (4, 20)%Q column = Return f -> y ∈ column -> (0 <= scale_ f)%Q.
Proof.
  intros Hfit Hy.
  destruct (ScalerFacts.fit_bounds _ _ _ _ Hfit Hy) as [Hlo Hhi].
  destruct (fit_facts _ _ Hfit) as (-> & _).
  assert (Hpos : (0 < handle_zeros_in_scale (data_max_ f - data_min_ f))%Q)
    by (apply handle_zeros_pos; lra).
  apply Qle_shift_div_l; [done|]. lra.
Qed.

End ScalerMore.

(** X13.  In every returned table the sizes follow the variance
    explained: of two rows, the one that explains no more variance than
    the other has a size, before rounding, that is no greater. *)
Theorem sizes_follow_variance (df : list Comptable.row)
    (cm : gmap string string) (cds : CDS.t) (i j : nat) (vi si vj sj : Q) :
  create_data_struct df cm = Return cds ->
  CDS.varexp cds !! i = Some vi -> CDS.size cds !! i = Some si ->
  CDS.varexp cds !! j = Some vj -> CDS.size cds !! j = Some sj ->
  (vi <= vj)%Q -> (si <= sj)%Q.
Proof.
  intros Hrun Hvi Hsi Hvj Hsj Hle.
  destruct (TableRows.sorted_rows _ _ _ Hrun)
    as (f0 & frame & Hfit & Hrows & _ & _ & _ & Hv & _ & _ & _ & _ & Hs & _).
  assert (Hrow : forall k v s,
            CDS.varexp cds !! k = Some v -> CDS.size cds !! k = Some s ->
            v ∈ Comptable.var_exp <$> df
            /\ s = (v * MinMaxScaler.scale_ f0 + MinMaxScaler.min_ f0)%Q).
  { intros k v s Hkv Hks.
    rewrite Hv, list_lookup_fmap in Hkv. rewrite Hs, list_lookup_fmap in Hks.
    destruct (frame !! k) as [row|] eqn:Hrow; [|discriminate].
    injection Hkv as <-. injection Hks as <-.
    destruct (proj1 (Forall_lookup _ _) Hrows k row Hrow)
      as (x & Hx & _ & _ & Hxv & _ & Hxs & _).
    rewrite Hxv, Hxs. split; [|done].
    apply list_elem_of_fmap. exists x. split; [done|].
    by apply list_elem_of_lookup_2 in Hx. }
  destruct (Hrow i vi si Hvi Hsi) as [Hini ->].
  destruct (Hrow j vj sj Hvj Hsj) as [_ ->].
  pose proof (ScalerMore.scale_nonneg _ _ _ Hfit Hini) as Hnn.
  set (scale := MinMaxScaler.scale_ f0) in *.
  set (lo := MinMaxScaler.min_ f0) in *.
  clearbody scale lo. nra.
Qed.

Lemma sizes_follow_variance_witness :
  (nth 4 (CDS.size five_cds) 0 <= nth 0 (CDS.size five_cds) 0)%Q.
Proof.
  apply (sizes_follow_variance five_components color_mapping five_cds
           4 0 15 (nth 4 (CDS.size five_cds) 0%Q)
           25 (nth 0 (CDS.size five_cds) 0%Q));
    (reflexivity || discriminate).
Defined.

(* ===================================================================== *)
(** * Further properties of the spectrum table                            *)
(* ===================================================================== *)

Module SpectrumMore.

Lemma fill_spectra_app gs data tr l1 l2 : forall df freqs,
  fill_spectra gs data tr (l1 ++ l2) df freqs
  = fill_spectra gs data tr l1 df freqs
    ≫= fun '(df1, freqs1) => fill_spectra gs data tr l2 df1 freqs1.
Proof.
  induction l1 as [|c rest IH]; intros df freqs; simpl; [done|].
  destruct (getitem data (ica_name c)) as [ts|e]; simpl; [|done].
  destruct (gs ts tr) as [spectrum freqs'].
  destruct (setitem df (ica_name c) spectrum) as [df1|e]; simpl; [|done].
  apply IH.
Qed.

(** The frequencies the loop hands back are those of the last series it
    saw. *)
Lemma fill_spectra_last gs data tr l c df freqs df' freqs' :
  fill_spectra gs data tr (l ++ [c]) df freqs = Return (df', freqs') ->
  exists ts, data !! ica_name c = Some ts /\ freqs' = (gs ts tr).2.
Proof.
  rewrite fill_spectra_app.
  destruct (fill_spectra gs data tr l df freqs) as [[df1 freqs1]|e]; simpl;
    [|discriminate].
  unfold getitem.
  destruct (data !! ica_name c) as [ts|]; simpl; [|discriminate].
  destruct (gs ts tr) as [spectrum fr] eqn:Hgs.
  destruct (setitem df1 (ica_name c) spectrum) as [df2|e]; simpl;
    [|discriminate].
  intros [= <- <-]. exists ts. by rewrite Hgs.
Qed.

(** The columns of a new frame are those it is given. *)
Lemma empty_frame_lookup names n name :
  columns (empty_frame names n) !! name
  = if decide (name ∈ names) then Some (replicate n None) else None.
Proof.
  unfold empty_frame. cbn [columns].
  induction names as [|a rest IH]; cbn [foldr].
  - rewrite lookup_empty. case_decide as H; [|done].
    by apply elem_of_nil in H.
  - destruct (decide (a = name)) as [->|Hne].
    + rewrite lookup_insert_eq.
      destruct (decide (name ∈ name :: rest)) as [|H]; [done|].
      exfalso. apply H, list_elem_of_here.
    + rewrite lookup_insert_ne by done. rewrite IH.
      destruct (decide (name ∈ rest)) as [Hin|Hnin],
        (decide (name ∈ a :: rest)) as [Hin'|Hnin']; try done; exfalso.
      * by apply Hnin', list_elem_of_further.
      * apply elem_of_cons in Hin' as [->|Hin']; done.
Qed.

(** The parts of a successful run of [_spectrum_data_src]. *)
Lemma spectrum_data_src_inv gs data tr n cds freqs :
  _spectrum_data_src gs data tr n = Return (cds, freqs) ->
  exists ts0 df' freqs0,
    data !! "ica_00" = Some ts0
    /\ fill_spectra gs data tr (seq 0 n)
         (empty_frame (ica_name <$> seq 0 n) (length (gs ts0 tr).1))
         freqs0 = Return (df', freqs)
    /\ freqs0 = (gs ts0 tr).2
    /\ cds = ColumnDataSource_of df'.
Proof.
  unfold _spectrum_data_src, getitem.
  destruct (data !! "ica_00") as [ts0|]; simpl; [|discriminate].
  destruct (gs ts0 tr) as [spectrum freqs0] eqn:Hgs. simpl.
  destruct (fill_spectra gs data tr (seq 0 n) _ freqs0)
    as [[df' fr]|e] eqn:Hfill; simpl; [|discriminate].
  intros [= <- <-]. exists ts0, df', freqs0. rewrite Hgs. by repeat split.
Qed.

End SpectrumMore.

(** X14.  The frequencies that [_spectrum_data_src] returns are those
    of the spectrum of the last component, and those of component 0 when
    it is asked for no component at all. *)
Theorem frequency_axis_of_last_component
    (get_spectrum : list Q -> Q -> list Q * list Q)
    (data : gmap string (list Q)) (tr : Q) (n_comps : nat)
    (cds : gmap string (list (option Q))) (freqs : list Q) :
  _spectrum_data_src get_spectrum data tr n_comps = Return (cds, freqs) ->
  exists ts, data !! ica_name (n_comps - 1) = Some ts
    /\ freqs = (get_spectrum ts tr).2.
Proof.
  intros Hrun.
  destruct (SpectrumMore.spectrum_data_src_inv _ _ _ _ _ _ Hrun)
    as (ts0 & df' & freqs0 & Hts0 & Hfill & Hf0 & _).
  destruct n_comps as [|m].
  - simpl in Hfill. injection Hfill as _ <-. by exists ts0.
  - rewrite seq_S in Hfill. simpl in Hfill.
    replace (S m - 1) with m by lia.
    by apply (SpectrumMore.fill_spectra_last _ _ _ _ _ _ _ _ _ Hfill).
Qed.

Lemma frequency_axis_of_last_component_witness :
  exists ts, five_series_table !! ica_name 4 = Some ts
    /\ (returned_freqs
          (_spectrum_data_src one_sided_spectrum five_series_table 2 5))
       = (one_sided_spectrum ts 2).2.
Proof.
  apply (frequency_axis_of_last_component one_sided_spectrum
           five_series_table 2 5
           (returned_columns
              (_spectrum_data_src one_sided_spectrum five_series_table 2 5))).
  reflexivity.
Defined.

(** X15.  The table that [_spectrum_data_src] returns has the column
    [index], which counts the bins of the spectrum of component 0 from
    0 on, and one column for each of the components it was asked for;
    it has no other column. *)
Theorem spectrum_table_columns
    (get_spectrum : list Q -> Q -> list Q * list Q)
    (data : gmap string (list Q)) (tr : Q) (n_comps : nat)
    (cds : gmap string (list (option Q))) (freqs : list Q) :
  _spectrum_data_src get_spectrum data tr n_comps = Return (cds, freqs) ->
  exists ts0, data !! "ica_00" = Some ts0
    /\ cds !! "index"
       = Some ((fun i => Some (Series.of_nat i))
                 <$> seq 0 (length (get_spectrum ts0 tr).1))
    /\ forall name,
         is_Some (cds !! name)
         <-> name = "index" \/ exists c, c < n_comps /\ name = ica_name c.
Proof.
  intros Hrun.
  destruct (SpectrumMore.spectrum_data_src_inv _ _ _ _ _ _ Hrun)
    as (ts0 & df' & freqs0 & Hts0 & Hfill & _ & ->).
  pose proof (SpectrumFacts.fill_spectra_spec get_spectrum data tr
                (seq 0 n_comps)
                (empty_frame (ica_name <$> seq 0 n_comps)
                             (length (get_spectrum ts0 tr).1))
                freqs0) as Hspec.
  rewrite Hfill in Hspec. destruct Hspec as (Hidx & Hin & Hout).
  exists ts0. split; [done|]. unfold ColumnDataSource_of. split.
  - by rewrite lookup_insert_eq, Hidx.
  - intros name. destruct (decide (name = "index")) as [->|Hne].
    + rewrite lookup_insert_eq. split; [by left|by eauto].
    + rewrite lookup_insert_ne by done.
      destruct (decide (name ∈ ica_name <$> seq 0 n_comps)) as [Hn|Hn].
      * destruct (Hin name Hn) as (ts & _ & -> & _).
        split; [|by eauto]. intros _. right.
        apply list_elem_of_fmap in Hn as (c & -> & Hc%elem_of_seq).
        exists c. split; [lia|done].
      * rewrite (Hout name Hn), SpectrumMore.empty_frame_lookup.
        rewrite decide_False by done.
        split; [by intros [? ?]|].
        intros [?|(c & Hc & ->)]; [done|]. exfalso. apply Hn.
        apply list_elem_of_fmap. exists c. split; [done|].
        apply elem_of_seq. lia.
Qed.

Lemma spectrum_table_columns_witness :
  exists ts0, even_series !! "ica_00" = Some ts0
    /\ returned_columns
         (_spectrum_data_src one_sided_spectrum even_series 2 2) !! "index"
       = Some ((fun i => Some (Series.of_nat i))
                 <$> seq 0 (length (one_sided_spectrum ts0 2).1))
    /\ forall name,
         is_Some (returned_columns
                    (_spectrum_data_src one_sided_spectrum even_series 2 2)
                  !! name)
         <-> name = "index" \/ exists c, c < 2 /\ name = ica_name c.
Proof.
  apply (spectrum_table_columns one_sided_spectrum even_series 2 2 _
           (returned_freqs
              (_spectrum_data_src one_sided_spectrum even_series 2 2))).
  reflexivity.
Defined.

(** X16.  When the component table and the spectrum table are made for
    the same number of components, the key that the callback builds for
    a row of the component table, [ica_] and the component padded to two
    characters, names a column of the spectrum table: the spectrum of
    that component's series, with as many bins as the spectrum of
    component 0. *)
Theorem every_row_has_its_spectrum (df : list Comptable.row)
    (cm : gmap string string) (cds : CDS.t)
    (get_spectrum : list Q -> Q -> list Q * list Q)
    (data : gmap string (list Q)) (tr : Q)
    (fft : gmap string (list (option Q))) (freqs : list Q)
    (k : nat) (c : string) :
  create_data_struct df cm = Return cds ->
  _spectrum_data_src get_spectrum data tr (length df) = Return (fft, freqs) ->
  CDS.component cds !! k = Some c ->
  exists ts0 ts,
    data !! "ica_00" = Some ts0
    /\ data !! ("ica_" +:+ Str.pad2 c) = Some ts
    /\ fft !! ("ica_" +:+ Str.pad2 c)
       = Some (Some <$> (get_spectrum ts tr).1)
    /\ length (get_spectrum ts tr).1 = length (get_spectrum ts0 tr).1.
Proof.
  intros Htable Hrun Hc.
  destruct (TableRows.sorted_rows _ _ _ Htable)
    as (f0 & frame & _ & Hrows & _ & _ & _ & _ & _ & _ & _ & Hcomp & _).
  rewrite Hcomp, list_lookup_fmap in Hc.
  destruct (frame !! k) as [row|] eqn:Hrow; [|discriminate].
  injection Hc as <-.
  destruct (proj1 (Forall_lookup _ _) Hrows k row Hrow) as (x & Hx & _).
  apply lookup_lt_Some in Hx.
  destruct (SpectrumMore.spectrum_data_src_inv _ _ _ _ _ _ Hrun)
    as (ts0 & df' & freqs0 & Hts0 & Hfill & _ & ->).
  pose proof (SpectrumFacts.fill_spectra_spec get_spectrum data tr
                (seq 0 (length df))
                (empty_frame (ica_name <$> seq 0 (length df))
                             (length (get_spectrum ts0 tr).1))
                freqs0) as Hspec.
  rewrite Hfill in Hspec. destruct Hspec as (_ & Hin & _).
  change ("ica_" +:+ Str.pad2 (pretty (Frame.component row)))
    with (ica_name (Frame.component row)).
  destruct (Hin (ica_name (Frame.component row))) as (ts & Hts & Hcol & Hlen).
  { apply list_elem_of_fmap. exists (Frame.component row). split; [done|].
    apply elem_of_seq. lia. }
  exists ts0, ts. split; [done|]. split; [done|]. split; [|done].
  unfold ColumnDataSource_of.
  by rewrite lookup_insert_ne by apply SpectrumFacts.ica_name_not_index.
Qed.

Lemma every_row_has_its_spectrum_witness :
  exists ts0 ts,
    five_series_table !! "ica_00" = Some ts0
    /\ five_series_table !! "ica_04" = Some ts
    /\ returned_columns
         (_spectrum_data_src one_sided_spectrum five_series_table 2 5)
       !! "ica_04"
       = Some (Some <$> (one_sided_spectrum ts 2).1)
    /\ length (one_sided_spectrum ts 2).1
       = length (one_sided_spectrum ts0 2).1.
Proof.
  apply (every_row_has_its_spectrum five_components color_mapping five_cds
           one_sided_spectrum five_series_table 2
           (returned_columns
              (_spectrum_data_src one_sided_spectrum five_series_table 2 5))
           (returned_freqs
              (_spectrum_data_src one_sided_spectrum five_series_table 2 5))
           2 "4"); reflexivity.
Defined.

(* ===================================================================== *)
(** * The ranked plots and the pie                                        *)
(* ===================================================================== *)

Module PlotFacts.
Import Series.

Lemma insert_desc_perm {A} (leb : A -> A -> bool) a l :
  insert_desc leb a l ≡ₚ a :: l.
Proof.
  induction l as [|b rest IH]; simpl; [done|].
  destruct (leb b a); [done|].
  rewrite IH. apply Permutation_swap.
Qed.

Lemma sort_desc_perm {A} (leb : A -> A -> bool) l : sort_desc leb l ≡ₚ l.
Proof.
  induction l as [|a rest IH]; simpl; [done|].
  by rewrite insert_desc_perm, IH.
Qed.

(** Sorting numbers leaves every later value at most as great. *)
Lemma insert_desc_sorted a l :
  StronglySorted (fun x y => (y <= x)%Q) l ->
  StronglySorted (fun x y => (y <= x)%Q) (insert_desc Qle_bool a l).
Proof.
  induction 1 as [|b rest Hs IH Hb]; simpl.
  - constructor; [constructor|constructor].
  - destruct (Qle_bool b a) eqn:E.
    + apply Qle_bool_iff in E.
      constructor; [by constructor|].
      constructor; [done|].
      eapply Forall_impl; [exact Hb|].
      intros y Hy. simpl in Hy. by apply Qle_trans with b.
    + constructor; [done|].
      rewrite insert_desc_perm. constructor; [|done].
      apply Qlt_le_weak, Qnot_le_lt. intros Hle.
      apply Qle_bool_iff in Hle. congruence.
Qed.

Lemma sort_desc_sorted l :
  StronglySorted (fun x y => (y <= x)%Q) (sort_desc Qle_bool l).
Proof.
  induction l as [|a rest IH]; simpl; [constructor|].
  by apply insert_desc_sorted.
Qed.

Lemma count_perm (p : Q -> bool) l l' : l ≡ₚ l' -> count p l = count p l'.
Proof.
  induction 1 as [|x l l' _ IH|x y l|l l' l'' _ IH1 _ IH2]; simpl; lia.
Qed.

(** In a column sorted from the greatest to the least, without equal
    values, a value stands after exactly the greater ones. *)
Lemma sorted_position ys :
  StronglySorted (fun x y => (y <= x)%Q) ys ->
  (forall x, x ∈ ys -> equal_to ys x = 1) ->
  forall i v, ys !! i = Some v -> greater_than ys v = i.
Proof.
  induction 1 as [|a rest Hs IH Ha]; intros Hd i v Hv; [done|].
  assert (Hrest : forall x, x ∈ rest -> Qeq_bool x a = false
                                      /\ equal_to rest x = 1).
  { intros x Hx.
    pose proof (Hd x (list_elem_of_further _ _ _ Hx)) as H1.
    unfold equal_to in *. simpl in H1.
    assert (0 < count (fun y => Qeq_bool x y) rest).
    { apply (RankMore.count_pos _ _ x); [done|]. apply Qeq_bool_refl. }
    destruct (Qeq_bool x a); [lia|]. split; [done|lia]. }
  unfold greater_than. simpl.
  destruct i as [|i]; simpl in Hv.
  - injection Hv as <-.
    replace (Qlt_bool a a) with false; cycle 1.
    { symmetry. apply not_true_is_false. intros E%RankFacts.Qlt_bool_true.
      by apply Qlt_irrefl in E. }
    rewrite RankFacts.count_none; [done|].
    apply forallb_forall. intros y Hy%list_elem_of_In.
    apply negb_true_iff, not_true_is_false.
    intros E%RankFacts.Qlt_bool_true.
    pose proof (proj1 (Forall_forall _ _) Ha y Hy) as Hle. simpl in Hle.
    by apply Qlt_not_le in E.
  - assert (Hin : v ∈ rest) by (by apply list_elem_of_lookup_2 in Hv).
    destruct (Hrest v Hin) as [Hne _].
    pose proof (proj1 (Forall_forall _ _) Ha v Hin) as Hle. simpl in Hle.
    replace (Qlt_bool v a) with true; cycle 1.
    { symmetry. apply RankFacts.Qlt_bool_true.
      apply Qle_lteq in Hle as [Hlt|Heq]; [done|].
      apply Qeq_bool_iff in Heq. congruence. }
    f_equal. apply (IH (fun x Hx => proj2 (Hrest x Hx)) i v Hv).
Qed.

(** A metric column of a returned table is the column of the parsed
    table, reordered. *)
Lemma metric_values_perm df cm cds m :
  create_data_struct df cm = Return cds ->
  metric_values m cds ≡ₚ metric_of m <$> df.
Proof.
  intros Hrun.
  destruct (FrameFacts.create_data_struct_inv _ _ _ Hrun)
    as (f0 & color & frame & _ & _ & Hperm & ->).
  destruct m; simpl;
    (eapply (TableFacts.frame_column _ _ _ _ 0%Q);
     [exact Hperm|by rewrite length_fmap|];
     intros i; simpl;
     first [ exact (eq_sym (TableFacts.nth_fmap_default
                              Comptable.kappa df i blank_row))
           | exact (eq_sym (TableFacts.nth_fmap_default
                              Comptable.rho df i blank_row))
           | exact (eq_sym (TableFacts.nth_fmap_default
                              Comptable.var_exp df i blank_row)) ]).
Qed.

Lemma data_of_metric cds m :
  CDS_data cds (metric_key m) = Some (NumColumn (metric_values m cds)).
Proof. by destruct m. Qed.

(** What the ranked plot holds when the module has its table. *)
Lemma create_sorted_plt_metric cds other n x_var m title xl yl :
  create_sorted_plt (Some cds) other n x_var (metric_key m) title xl yl
  = Return {| sorted_title := title;
              line_x := of_nat <$> seq 1 n;
              line_y := NumColumn (sort_desc Qle_bool (metric_values m cds));
              line_color := "black";
              circle_x := x_var;
              circle_y := metric_key m;
              circle_source := cds;
              x_axis_label := xl;
              y_axis_label := yl;
              x_range := ((-1)%Q, of_nat (n + 1)) |}.
Proof.
  unfold create_sorted_plt.
  rewrite FrameFacts.bind_Return, data_of_metric.
  by rewrite !FrameFacts.bind_Return.
Qed.

Lemma Rsum_app (l l' : list R) : Rsum (l ++ l') = (Rsum l + Rsum l')%R.
Proof.
  induction l as [|x l IH]; simpl; [unfold Rsum; ring|].
  fold (Rsum (l ++ l')). fold (Rsum l). rewrite IH. ring.
Qed.

Lemma running_sums_length before z values :
  length (running_sums before z values) = length values.
Proof.
  revert before. induction values as [|x rest IH]; intros before; simpl;
    [done|]. by rewrite IH.
Qed.

(** Entry [k] of the running sums: the sum of the first [k] values
    when the sums start at zero, of the first [k + 1] otherwise. *)
Lemma running_sums_lookup before values k x :
  values !! k = Some x ->
  running_sums before true values !! k
  = Some (before + Rsum (take k values))%R
  /\ running_sums before false values !! k
     = Some (before + Rsum (take (S k) values))%R.
Proof.
  revert before k. induction values as [|y rest IH]; intros before k Hk;
    [done|].
  destruct k as [|k]; simpl in *.
  - injection Hk as ->. split; f_equal; ring.
  - destruct (IH (before + y)%R k Hk) as [-> ->].
    split; f_equal; ring.
Qed.

End PlotFacts.

(** X17.  The line of a ranked plot shows the table of the module,
    whatever table the caller passes: for each of the three metrics its
    heights are the values of that column of the module's table from
    the greatest to the least, its positions are [1 .. n_comps], the
    points are drawn from the module's table, and the horizontal range
    is [-1 .. n_comps + 1]. *)
Theorem ranked_line_is_the_sorted_column (df : list Comptable.row)
    (cm : gmap string string) (cds other : CDS.t) (n_comps : nat)
    (x_var : string) (m : metric) (title x_label y_label : option string) :
  create_data_struct df cm = Return cds ->
  exists plot ys,
    create_sorted_plt (Some cds) other n_comps x_var (metric_key m)
      title x_label y_label = Return plot
    /\ line_y plot = NumColumn ys
    /\ ys ≡ₚ metric_of m <$> df
    /\ StronglySorted (fun a b => (b <= a)%Q) ys
    /\ line_x plot = one_to n_comps
    /\ circle_source plot = cds
    /\ x_range plot = ((-1)%Q, Series.of_nat (n_comps + 1)).
Proof.
  intros Hrun.
  eexists _, _. split; [apply PlotFacts.create_sorted_plt_metric|].
  simpl. split; [done|]. split.
  - rewrite PlotFacts.sort_desc_perm.
    by apply (PlotFacts.metric_values_perm df cm).
  - split; [apply PlotFacts.sort_desc_sorted|done].
Qed.

Lemma ranked_line_is_the_sorted_column_witness :
  exists plot ys,
    create_sorted_plt (Some two_of_a_kind_cds) five_cds 3 "kappa_rank"
      "kappa" (Some "Kappa Rank") (Some "Kappa") None = Return plot
    /\ line_y plot = NumColumn ys
    /\ ys ≡ₚ Comptable.kappa <$> two_of_a_kind
    /\ StronglySorted (fun a b => (b <= a)%Q) ys
    /\ line_x plot = one_to 3
    /\ circle_source plot = two_of_a_kind_cds
    /\ x_range plot = ((-1)%Q, Series.of_nat 4).
Proof.
  apply (ranked_line_is_the_sorted_column two_of_a_kind color_mapping
           two_of_a_kind_cds five_cds 3 "kappa_rank" Kappa).
  reflexivity.
Defined.

(** X18.  When the values of a metric differ from each other and
    [n_comps] is the number of rows of the table, every point of the
    ranked plot lies on its line: the rank of a row is a position
    [p + 1] of the line, and the line has the value of the row
    there. *)
Theorem ranked_points_lie_on_the_line (df : list Comptable.row)
    (cm : gmap string string) (cds other : CDS.t) (m : metric)
    (title x_label y_label : option string) (plot : SortedPlot)
    (k : nat) (v r : Q) :
  create_data_struct df cm = Return cds ->
  all_distinct (metric_of m <$> df) = true ->
  create_sorted_plt (Some cds) other (length df) (rank_key m) (metric_key m)
    title x_label y_label = Return plot ->
  metric_values m cds !! k = Some v ->
  metric_ranks m cds !! k = Some r ->
  exists p ys,
    line_y plot = NumColumn ys
    /\ (r == Series.of_nat (S p))%Q
    /\ line_x plot !! p = Some (Series.of_nat (S p))
    /\ ys !! p = Some v.
Proof.
  intros Hrun Hd Hplot Hv Hr.
  rewrite PlotFacts.create_sorted_plt_metric in Hplot.
  injection Hplot as <-. simpl.
  destruct (RankMore.metric_rows _ _ _ m Hrun k v r Hv Hr) as [Hin ->].
  pose proof (PlotFacts.metric_values_perm _ _ _ m Hrun) as Hperm.
  set (col := metric_of m <$> df) in *.
  set (ys := sort_desc Qle_bool (metric_values m cds)).
  assert (Hys : ys ≡ₚ col)
    by (unfold ys; by rewrite PlotFacts.sort_desc_perm).
  exists (Series.greater_than col v), ys.
  split; [done|]. split.
  { rewrite <- (Qred_correct (Series.rank_of col v)).
    by rewrite (RankFacts.rank_of_distinct col v Hd Hin). }
  split.
  { rewrite list_lookup_fmap, lookup_seq_lt; [done|].
    pose proof (RankFacts.greater_than_bound col v Hin) as Hb.
    unfold col in Hb. rewrite length_fmap in Hb. exact Hb. }
  assert (Hin' : v ∈ ys) by (by rewrite Hys).
  apply list_elem_of_lookup_1 in Hin' as [i Hi].
  assert (Hpos : Series.greater_than ys v = i).
  { apply PlotFacts.sorted_position; [apply PlotFacts.sort_desc_sorted| |done].
    intros x Hx. unfold Series.equal_to.
    rewrite (PlotFacts.count_perm _ ys col Hys).
    apply RankFacts.equal_to_distinct; [done|]. by rewrite <- Hys. }
  unfold Series.greater_than in *.
  rewrite <- (PlotFacts.count_perm _ ys col Hys). by rewrite Hpos.
Qed.

Lemma ranked_points_lie_on_the_line_witness :
  exists p ys,
    line_y five_rho_plot = NumColumn ys
    /\ (Series.rank_of (Comptable.rho <$> five_components) 20
        == Series.of_nat (S p))%Q
    /\ line_x five_rho_plot !! p = Some (Series.of_nat (S p))
    /\ ys !! p = Some 20%Q.
Proof.
  apply (ranked_points_lie_on_the_line five_components color_mapping
           five_cds two_of_a_kind_cds Rho (Some "Rho Rank") (Some "Rho")
           None five_rho_plot 0 20%Q); reflexivity.
Defined.

(** X19.  The wedges of the pie tile the full turn.  For a returned
    table with positive total variance explained there is one wedge for
    each row, in the order of the rows and with the colour of its row;
    the first wedge starts at angle 0, every wedge ends where the next
    one starts, the extent of a wedge is the angle of its row, and the
    last wedge ends at [2 * PI]. *)
Theorem wedges_tile_the_circle (df : list Comptable.row)
    (cm : gmap string string) (cds : CDS.t) (n_comps : nat) :
  create_data_struct df cm = Return cds ->
  (0 < Series.sum (Comptable.var_exp <$> df))%Q ->
  let pie := wedges (create_varexp_pie_plt cds n_comps) in
  length pie = length df
  /\ forall k w, pie !! k = Some w ->
       CDS.angle cds !! k = Some (end_angle w - start_angle w)%R
       /\ CDS.color cds !! k = Some (fill_color w)
       /\ (k = 0 -> start_angle w = 0%R)
       /\ (forall w', pie !! S k = Some w' -> start_angle w' = end_angle w)
       /\ (S k = length df -> end_angle w = (2 * PI)%R).
Proof.
  intros Hrun Hpos pie.
  assert (Hsum : Rsum (CDS.angle cds) = (2 * PI)%R
                 /\ length (CDS.angle cds) = length df
                 /\ length (CDS.color cds) = length df).
  { destruct (FrameFacts.create_data_struct_inv _ _ _ Hrun)
      as (f0 & color & frame & _ & _ & Hperm & ->).
    simpl. rewrite !length_fmap.
    assert (Hlen : length frame = length df)
      by (by rewrite Hperm, length_fmap, length_seq).
    split; [|done].
    rewrite (TableFacts.Rsum_perm _ (angles (Comptable.var_exp <$> df))).
    - by apply TableFacts.Rsum_angles.
    - eapply (TableFacts.frame_column _ _ _ _ 0%R); [exact Hperm| |done].
      unfold angles. by rewrite !length_fmap. }
  destruct Hsum as (Hsum & Hla & Hlc).
  assert (Hwedge : forall k w, pie !! k = Some w ->
            exists a, CDS.angle cds !! k = Some a
              /\ CDS.color cds !! k = Some (fill_color w)
              /\ start_angle w = (0 + Rsum (take k (CDS.angle cds)))%R
              /\ end_angle w = (0 + Rsum (take (S k) (CDS.angle cds)))%R).
  { intros k w Hw. unfold pie, create_varexp_pie_plt in Hw. simpl in Hw.
    apply lookup_zip_with_Some in Hw as ([s e] & c & -> & Hse & Hc).
    apply lookup_zip_with_Some in Hse as (s' & e' & [= <- <-] & Hs & He).
    assert (Hk : k < length (CDS.angle cds)).
    { apply lookup_lt_Some in Hs. unfold cumsum in Hs.
      by rewrite PlotFacts.running_sums_length in Hs. }
    destruct (lookup_lt_is_Some_2 _ _ Hk) as [a Ha].
    destruct (PlotFacts.running_sums_lookup 0 _ k a Ha) as [Hs' He'].
    unfold cumsum in Hs, He. rewrite Hs' in Hs. rewrite He' in He.
    injection Hs as <-. injection He as <-.
    exists a. by repeat split. }
  split.
  { unfold pie, create_varexp_pie_plt. simpl.
    rewrite length_zip_with, length_zip_with. unfold cumsum.
    rewrite !PlotFacts.running_sums_length. lia. }
  intros k w Hw.
  destruct (Hwedge k w Hw) as (a & Ha & Hc & Hs & He).
  split.
  { rewrite Ha. f_equal. rewrite Hs, He.
    rewrite (take_S_r _ _ _ Ha), PlotFacts.Rsum_app. simpl. ring. }
  split; [done|]. split.
  { intros ->. rewrite Hs. simpl. ring. }
  split.
  { intros w' Hw'. destruct (Hwedge (S k) w' Hw') as (_ & _ & _ & -> & _).
    by rewrite He. }
  intros Hlast. rewrite He, Hlast, <- Hla, firstn_all, Hsum. ring.
Qed.

Lemma wedges_tile_the_circle_witness :
  let pie := wedges (create_varexp_pie_plt five_cds 5) in
  length pie = length five_components
  /\ forall k w, pie !! k = Some w ->
       CDS.angle five_cds !! k = Some (end_angle w - start_angle w)%R
       /\ CDS.color five_cds !! k = Some (fill_color w)
       /\ (k = 0 -> start_angle w = 0%R)
       /\ (forall w', pie !! S k = Some w' -> start_angle w' = end_angle w)
       /\ (S k = length five_components -> end_angle w = (2 * PI)%R).
Proof.
  apply (wedges_tile_the_circle five_components color_mapping five_cds 5);
    reflexivity.
Defined.
